(** * LensLore: the landmark pipeline of [App.tsx] and [services/geminiService.ts]

    A shallow embedding of the orchestration code: the three service
    functions ([identifyLandmark], [getLandmarkDetails], [generateNarration]),
    the component state of [App] with its handlers ([handleFileSelect],
    [startAnalysis], [toggleAudio], [resetApp]), and the JavaScript built-ins
    they lean on ([String.prototype.split], [substring], [JSON.parse], [Map]).

    Conventions.
    - A JavaScript string is the list of its UTF-16 code units ([jsstring]),
      each a number; [length] and [substring] therefore count code units,
      as in the source.
    - [undefined] and [null] in an optional position are [None].
    - A promise is represented by its settled outcome ([Outcome]): a value or
      a thrown exception. *)

From Stdlib Require Import List NArith Arith Bool Lia String Ascii.
Import ListNotations.

Set Implicit Arguments.
Set Warnings "-register-all".

(* ================================================================= *)
(** ** JavaScript strings *)

Module Js.

Definition jsstring := list N.

(** The code units of an ASCII literal of the source. *)
Definition lit (s : string) : jsstring :=
  List.map N_of_ascii (list_ascii_of_string s).
Arguments lit s%_string.

Fixpoint eqb (a b : jsstring) : bool :=
  match a, b with
  | [], [] => true
  | x :: a', y :: b' => N.eqb x y && eqb a' b'
  | _, _ => false
  end.

(** [s.substring(0, n)], which clamps [n] to the length of [s]. *)
Definition substring0 (n : nat) (s : jsstring) : jsstring := firstn n s.

(** [x || d] on an optional string: [undefined] and the empty string are
    both falsy. *)
Definition truthy (x : option jsstring) : bool :=
  match x with
  | Some (_ :: _) => true
  | _ => false
  end.

Definition or_else (x : option jsstring) (d : jsstring) : jsstring :=
  match x with
  | Some (c :: r) => c :: r
  | _ => d
  end.

(** [s.split(sep)] for a one-code-unit separator: every separator cuts, and
    the empty string splits into one empty piece. *)
Fixpoint split (sep : N) (s : jsstring) : list jsstring :=
  match s with
  | [] => [[]]
  | c :: r =>
      if N.eqb c sep then [] :: split sep r
      else match split sep r with
           | [] => [[c]]
           | p :: ps => (c :: p) :: ps
           end
  end.

(** A thrown value: the constructor that made it and its [message]
    property ([None] when the thrown value has none). *)
Inductive ErrorClass := EError | ESyntaxError | ETypeError | EHost.

Record Exn := mkExn { exn_class : ErrorClass; exn_message : option jsstring }.

Inductive Outcome (A : Type) : Type :=
| Ok (a : A)
| Throw (e : Exn).
Arguments Ok {A} a.
Arguments Throw {A} e.

(** [new Error(msg)] *)
Definition Error (msg : jsstring) : Exn := mkExn EError (Some msg).

End Js.
Import Js.

(* ================================================================= *)
(** ** JSON values and [JSON.parse] *)

Module JSON.

#[local] Open Scope N_scope.

(** A number keeps its literal as written; its double value is not
    computed.  An object keeps its members in source order; property
    lookup ([lookup]) takes the last binding of a key, as [JSON.parse] does
    on duplicate keys. *)
Inductive Json :=
| JNull
| JBool (b : bool)
| JNumber (lexeme : jsstring)
| JString (s : jsstring)
| JArray (elems : list Json)
| JObject (members : list (jsstring * Json)).

Inductive Parsed (A : Type) : Type :=
| Done (a : A) (rest : jsstring)
| SyntaxErr
| OutOfFuel.
Arguments Done {A} a rest.
Arguments SyntaxErr {A}.
Arguments OutOfFuel {A}.

Definition is_ws (c : N) : bool :=
  N.eqb c 32 || N.eqb c 9 || N.eqb c 10 || N.eqb c 13.

Definition is_digit (c : N) : bool := N.leb 48 c && N.leb c 57.

Fixpoint skip_ws (s : jsstring) : jsstring :=
  match s with
  | c :: r => if is_ws c then skip_ws r else s
  | [] => []
  end.

(** Consumes the word [w] at the head of [s]. *)
Fixpoint expect (w s : jsstring) : option jsstring :=
  match w with
  | [] => Some s
  | c :: w' =>
      match s with
      | d :: s' => if N.eqb c d then expect w' s' else None
      | [] => None
      end
  end.

(** Longest prefix of digits, and what follows it. *)
Fixpoint digits (s : jsstring) : jsstring * jsstring :=
  match s with
  | c :: r =>
      if is_digit c then let (ds, r') := digits r in (c :: ds, r')
      else ([], s)
  | [] => ([], [])
  end.

Definition hex_val (c : N) : option N :=
  if is_digit c then Some (c - 48)%N
  else if N.leb 97 c && N.leb c 102 then Some (c - 87)%N
  else if N.leb 65 c && N.leb c 70 then Some (c - 55)%N
  else None.

(** The body of a string literal after its opening quote, up to and
    including the closing quote; escapes are decoded. *)
Fixpoint parse_chars (s : jsstring) : option (jsstring * jsstring) :=
  let cons_to (c : N) (k : option (jsstring * jsstring)) :=
    match k with
    | Some (str, r) => Some (c :: str, r)
    | None => None
    end in
  match s with
  | [] => None
  | c :: r =>
      if N.eqb c 34 then Some ([], r)
      else if N.eqb c 92 then
        match r with
        | [] => None
        | e :: r1 =>
            if N.eqb e 34 then cons_to 34 (parse_chars r1)
            else if N.eqb e 92 then cons_to 92 (parse_chars r1)
            else if N.eqb e 47 then cons_to 47 (parse_chars r1)
            else if N.eqb e 98 then cons_to 8 (parse_chars r1)
            else if N.eqb e 102 then cons_to 12 (parse_chars r1)
            else if N.eqb e 110 then cons_to 10 (parse_chars r1)
            else if N.eqb e 114 then cons_to 13 (parse_chars r1)
            else if N.eqb e 116 then cons_to 9 (parse_chars r1)
            else if N.eqb e 117 then
              match r1 with
              | h1 :: h2 :: h3 :: h4 :: r2 =>
                  match hex_val h1, hex_val h2, hex_val h3, hex_val h4 with
                  | Some a, Some b, Some c', Some d =>
                      cons_to (((a * 16 + b) * 16 + c') * 16 + d)%N
                              (parse_chars r2)
                  | _, _, _, _ => None
                  end
              | _ => None
              end
            else None
        end
      else if N.ltb c 32 then None
      else cons_to c (parse_chars r)
  end.

(** An optional minus sign; an integer part that is [0] or starts with a
    non-zero digit; an optional fraction (a point and at least one digit);
    an optional exponent ([e] or [E], an optional sign, at least one
    digit). *)
Definition parse_number (s : jsstring) : option (jsstring * jsstring) :=
  let (sign, s1) :=
    match s with
    | c :: r => if N.eqb c 45 then ([c], r) else ([], s)
    | [] => ([], s)
    end in
  match s1 with
  | [] => None
  | c :: r =>
      if negb (is_digit c) then None
      else
        let (int, s2) :=
          if N.eqb c 48 then ([c], r)
          else let (ds, r') := digits r in (c :: ds, r') in
        let frac :=
          match s2 with
          | p :: r' =>
              if N.eqb p 46 then
                match digits r' with
                | ([], _) => None
                | (ds, r'') => Some (p :: ds, r'')
                end
              else Some ([], s2)
          | [] => Some ([], s2)
          end in
        match frac with
        | None => None
        | Some (fr, s3) =>
            let exp :=
              match s3 with
              | e :: r' =>
                  if N.eqb e 101 || N.eqb e 69 then
                    let (sg, r'') :=
                      match r' with
                      | g :: t =>
                          if N.eqb g 43 || N.eqb g 45 then ([g], t)
                          else ([], r')
                      | [] => ([], r')
                      end in
                    match digits r'' with
                    | ([], _) => None
                    | (ds, t) => Some (e :: sg ++ ds, t)
                    end
                  else Some ([], s3)
              | [] => Some ([], s3)
              end in
            match exp with
            | None => None
            | Some (ex, s4) => Some (sign ++ int ++ fr ++ ex, s4)
            end
        end
  end.

Definition lift_opt {A B : Type} (f : A -> B) (o : option (A * jsstring))
  : Parsed B :=
  match o with
  | Some (a, r) => Done (f a) r
  | None => SyntaxErr
  end.

Fixpoint parse_value (fuel : nat) (s : jsstring) {struct fuel} : Parsed Json :=
  match fuel with
  | O => OutOfFuel
  | S fuel' =>
      match skip_ws s with
      | [] => SyntaxErr
      | c :: r =>
          if N.eqb c 110 then
            lift_opt (fun _ => JNull) (option_map (pair tt) (expect (lit "ull") r))
          else if N.eqb c 116 then
            lift_opt (fun _ => JBool true) (option_map (pair tt) (expect (lit "rue") r))
          else if N.eqb c 102 then
            lift_opt (fun _ => JBool false) (option_map (pair tt) (expect (lit "alse") r))
          else if N.eqb c 34 then lift_opt JString (parse_chars r)
          else if N.eqb c 91 then
            match skip_ws r with
            | d :: r' =>
                if N.eqb d 93 then Done (JArray []) r'
                else match parse_elements fuel' r with
                     | Done l r'' => Done (JArray l) r''
                     | SyntaxErr => SyntaxErr
                     | OutOfFuel => OutOfFuel
                     end
            | [] => SyntaxErr
            end
          else if N.eqb c 123 then
            match skip_ws r with
            | d :: r' =>
                if N.eqb d 125 then Done (JObject []) r'
                else match parse_members fuel' r with
                     | Done l r'' => Done (JObject l) r''
                     | SyntaxErr => SyntaxErr
                     | OutOfFuel => OutOfFuel
                     end
            | [] => SyntaxErr
            end
          else if N.eqb c 45 || is_digit c then
            lift_opt JNumber (parse_number (c :: r))
          else SyntaxErr
      end
  end

with parse_elements (fuel : nat) (s : jsstring) {struct fuel}
  : Parsed (list Json) :=
  match fuel with
  | O => OutOfFuel
  | S fuel' =>
      match parse_value fuel' s with
      | Done v r =>
          match skip_ws r with
          | d :: r' =>
              if N.eqb d 44 then
                match parse_elements fuel' r' with
                | Done l r'' => Done (v :: l) r''
                | SyntaxErr => SyntaxErr
                | OutOfFuel => OutOfFuel
                end
              else if N.eqb d 93 then Done [v] r'
              else SyntaxErr
          | [] => SyntaxErr
          end
      | SyntaxErr => SyntaxErr
      | OutOfFuel => OutOfFuel
      end
  end

with parse_members (fuel : nat) (s : jsstring) {struct fuel}
  : Parsed (list (jsstring * Json)) :=
  match fuel with
  | O => OutOfFuel
  | S fuel' =>
      match skip_ws s with
      | q :: r =>
          if negb (N.eqb q 34) then SyntaxErr
          else
            match parse_chars r with
            | None => SyntaxErr
            | Some (k, r1) =>
                match skip_ws r1 with
                | col :: r2 =>
                    if negb (N.eqb col 58) then SyntaxErr
                    else
                      match parse_value fuel' r2 with
                      | Done v r3 =>
                          match skip_ws r3 with
                          | d :: r4 =>
                              if N.eqb d 44 then
                                match parse_members fuel' r4 with
                                | Done l r5 => Done ((k, v) :: l) r5
                                | SyntaxErr => SyntaxErr
                                | OutOfFuel => OutOfFuel
                                end
                              else if N.eqb d 125 then Done [(k, v)] r4
                              else SyntaxErr
                          | [] => SyntaxErr
                          end
                      | SyntaxErr => SyntaxErr
                      | OutOfFuel => OutOfFuel
                      end
                | [] => SyntaxErr
                end
            end
      | [] => SyntaxErr
      end
  end.

(** Recursion depth never exceeds twice the number of code units. *)
Definition fuel_for (text : jsstring) : nat :=
  (2 * List.length text + 2)%nat.

(** [JSON.parse(text)]: [None] stands for the thrown [SyntaxError]. *)
Definition parse (text : jsstring) : option Json :=
  match parse_value (fuel_for text) text with
  | Done v rest =>
      match skip_ws rest with
      | [] => Some v
      | _ :: _ => None
      end
  | SyntaxErr => None
  | OutOfFuel => None
  end.

(** Own property [key] of a parsed object, [None] for [undefined]. *)
Fixpoint lookup (key : jsstring) (members : list (jsstring * Json))
  : option Json :=
  match members with
  | [] => None
  | (k, v) :: rest =>
      match lookup key rest with
      | Some v' => Some v'
      | None => if Js.eqb k key then Some v else None
      end
  end.

End JSON.
Import JSON.

(* ================================================================= *)
(** ** [types.ts] and the shapes of the remote responses *)

Inductive AppStatus :=
| IDLE | ANALYZING_IMAGE | SEARCHING_INFO | GENERATING_AUDIO | COMPLETE | ERROR.

Record AppError := { message : jsstring }.

Record Source := { title : jsstring; uri : jsstring }.

Record LandmarkFullDetails := {
  description : jsstring;
  sources : list Source
}.

(** The fields of a [GenerateContentResponse] that the services read.
    Every level is optional, which is what the optional chaining of the
    source allows for. *)
Record Web := { web_uri : option jsstring; web_title : option jsstring }.
Record GroundingChunk := { web : option Web }.
Record GroundingMetadata := { groundingChunks : option (list GroundingChunk) }.
Record Blob := { data : option jsstring }.
Record Part := { part_text : option jsstring; inlineData : option Blob }.
Record Content := { parts : option (list Part) }.
Record Candidate := {
  content : option Content;
  groundingMetadata : option GroundingMetadata
}.
Record GenerateContentResponse := {
  text : option jsstring;
  candidates : option (list Candidate)
}.

(** What varies between the three [generateContent] calls.  The details
    prompt is a fixed template around its two arguments, so the request is
    represented by them ([None] is [undefined]). *)
Inductive Request :=
| VisionRequest (imageBase64 : option jsstring)
| DetailsRequest (landmarkName visualCtx : option Json)
| SpeechRequest (text : jsstring).

(** Modelled from the spec: the decoded PCM buffer built by
    [utils/audioUtils], which is not part of the sources at hand. *)
Record AudioBuffer := {
  sampleRate : N;
  numberOfChannels : N;
  pcm : list N
}.

Record AudioContext := { ctx_sampleRate : N }.

(** Everything outside the program for one run: the environment variable,
    the remote service, the message texts the engine puts into the errors
    it raises itself, the construction of the audio context, and the two
    helpers of [utils/audioUtils], whose code is not at hand and which are
    taken as given. *)
Record Runtime := {
  API_KEY : option jsstring;
  generateContent : Request -> Outcome GenerateContentResponse;
  syntaxErrorMessage : jsstring -> jsstring;
  typeErrorMessage : jsstring;
  conversionErrorMessage : jsstring;
  createAudioContext : N -> Outcome AudioContext;
  decodeBase64 : jsstring -> Outcome (list N);
  decodeAudioData : list N -> AudioContext -> N -> N -> Outcome AudioBuffer
}.

(* ================================================================= *)
(** ** Component state of [App] *)

(** An [AudioBufferSourceNode] once wired up: the buffer it plays and
    whether it is sounding. *)
Record SourceNode := { src_buffer : AudioBuffer; src_playing : bool }.

Record AppState := mkApp {
  status : AppStatus;
  image : option jsstring;
  error : option AppError;
  landmark : option Json;
  details : option LandmarkFullDetails;
  audioBuffer : option AudioBuffer;
  isPlaying : bool;
  audioContextRef : option AudioContext;
  (** [sourceNodeRef.current], an index into [nodes] *)
  sourceNodeRef : option nat;
  (** value of the file input the ref points at, when it is mounted *)
  fileInputRef : option jsstring;
  (** every source node created so far *)
  nodes : list SourceNode
}.

Definition initial : AppState :=
  mkApp IDLE None None None None None false None None (Some []) [].

Section Setters.
Variable st : AppState.

Definition setStatus (x : AppStatus) : AppState :=
    mkApp x (image st) (error st) (landmark st) (details st) (audioBuffer st)
          (isPlaying st) (audioContextRef st) (sourceNodeRef st)
          (fileInputRef st) (nodes st).
Definition setImage (x : option jsstring) : AppState :=
    mkApp (status st) x (error st) (landmark st) (details st) (audioBuffer st)
          (isPlaying st) (audioContextRef st) (sourceNodeRef st)
          (fileInputRef st) (nodes st).
Definition setError (x : option AppError) : AppState :=
    mkApp (status st) (image st) x (landmark st) (details st) (audioBuffer st)
          (isPlaying st) (audioContextRef st) (sourceNodeRef st)
          (fileInputRef st) (nodes st).
(** The state holds [null] as [None], also when the value stored is the
    [null] that [JSON.parse] returned. *)
Definition setLandmark (x : option Json) : AppState :=
    mkApp (status st) (image st) (error st)
          (match x with Some JNull => None | _ => x end)
          (details st) (audioBuffer st)
          (isPlaying st) (audioContextRef st) (sourceNodeRef st)
          (fileInputRef st) (nodes st).
Definition setDetails (x : option LandmarkFullDetails) : AppState :=
    mkApp (status st) (image st) (error st) (landmark st) x (audioBuffer st)
          (isPlaying st) (audioContextRef st) (sourceNodeRef st)
          (fileInputRef st) (nodes st).
Definition setAudioBuffer (x : option AudioBuffer) : AppState :=
    mkApp (status st) (image st) (error st) (landmark st) (details st) x
          (isPlaying st) (audioContextRef st) (sourceNodeRef st)
          (fileInputRef st) (nodes st).
Definition setIsPlaying (x : bool) : AppState :=
    mkApp (status st) (image st) (error st) (landmark st) (details st)
          (audioBuffer st) x (audioContextRef st) (sourceNodeRef st)
          (fileInputRef st) (nodes st).
Definition setAudioContextRef (x : option AudioContext) : AppState :=
    mkApp (status st) (image st) (error st) (landmark st) (details st)
          (audioBuffer st) (isPlaying st) x (sourceNodeRef st)
          (fileInputRef st) (nodes st).
Definition setSourceNodeRef (x : option nat) : AppState :=
    mkApp (status st) (image st) (error st) (landmark st) (details st)
          (audioBuffer st) (isPlaying st) (audioContextRef st) x
          (fileInputRef st) (nodes st).
Definition setFileInputRef (x : option jsstring) : AppState :=
    mkApp (status st) (image st) (error st) (landmark st) (details st)
          (audioBuffer st) (isPlaying st) (audioContextRef st)
          (sourceNodeRef st) x (nodes st).
Definition setNodes (x : list SourceNode) : AppState :=
    mkApp (status st) (image st) (error st) (landmark st) (details st)
          (audioBuffer st) (isPlaying st) (audioContextRef st)
          (sourceNodeRef st) (fileInputRef st) x.
End Setters.

(** What committing a render does to the ref of the file input: the input
    exists in the idle view only, so the ref is emptied when another view
    is drawn and points at a fresh, empty input when the idle view comes
    back. *)
Definition commit (st : AppState) : AppState :=
  match status st with
  | IDLE =>
      match fileInputRef st with
      | Some _ => st
      | None => setFileInputRef st (Some [])
      end
  | _ => setFileInputRef st None
  end.

(* ================================================================= *)
(** ** The monad of an asynchronous handler

    A handler threads the component state, may throw, issues remote
    requests and suspends at each [await].  [requests] logs the requests in
    the order they are sent; [frames] logs the component state at each
    suspension, which is what is on screen while the handler waits. *)

Record World := mkWorld {
  app : AppState;
  requests : list Request;
  frames : list AppState
}.

Definition M (A : Type) : Type := World -> Outcome A * World.

Definition ret {A} (a : A) : M A := fun w => (Ok a, w).

Definition bind {A B} (m : M A) (f : A -> M B) : M B :=
  fun w =>
    match m w with
    | (Ok a, w') => f a w'
    | (Throw e, w') => (Throw e, w')
    end.

Definition throw {A} (e : Exn) : M A := fun w => (Throw e, w).

Definition try_catch {A} (body : M A) (handler : Exn -> M A) : M A :=
  fun w =>
    match body w with
    | (Ok a, w') => (Ok a, w')
    | (Throw e, w') => handler e w'
    end.

Definition settle {A} (o : Outcome A) : M A := fun w => (o, w).

Definition read : M AppState := fun w => (Ok (app w), w).

Definition update (f : AppState -> AppState) : M unit :=
  fun w => (Ok tt, mkWorld (f (app w)) (requests w) (frames w)).

(** [await m]: the state as it stands is what the user sees until [m]
    settles. *)
Definition await {A} (m : M A) : M A :=
  fun w => m (mkWorld (app w) (requests w) (frames w ++ [app w])).

(** [await m] in a handler of the component: the handler gives way, the
    state updates made so far are rendered and the render is committed;
    the committed state is what the user sees until [m] settles. *)
Definition awaitRendered {A} (m : M A) : M A :=
  fun w =>
    m (mkWorld (commit (app w)) (requests w) (frames w ++ [commit (app w)])).

Definition send (rt : Runtime) (r : Request) : M GenerateContentResponse :=
  fun w => (generateContent rt r, mkWorld (app w) (requests w ++ [r]) (frames w)).

Declare Scope handler_scope.
Delimit Scope handler_scope with handler.
Notation "x <- m ;; k" := (bind m (fun x => k))
  (at level 61, m at next level, right associativity) : handler_scope.
Notation "m ;; k" := (bind m (fun _ => k))
  (at level 61, right associativity) : handler_scope.
#[local] Open Scope handler_scope.

(* ================================================================= *)
(** ** [services/geminiService.ts] *)

Definition getClient (rt : Runtime) : M unit :=
  if truthy (API_KEY rt) then ret tt
  else throw (Error (lit "API_KEY is missing in environment variables")).

(** Step 1.  The value returned is whatever [JSON.parse] produced: the
    cast to [LandmarkAnalysisResult] does nothing at run time. *)
Definition identifyLandmark (rt : Runtime) (imageBase64 : option jsstring)
  : M Json :=
  getClient rt ;;
  response <- await (send rt (VisionRequest imageBase64)) ;;
  match text response with
  | Some (c :: r) =>
      match JSON.parse (c :: r) with
      | Some v => ret v
      | None =>
          throw (mkExn ESyntaxError (Some (syntaxErrorMessage rt (c :: r))))
      end
  | _ => throw (Error (lit "No response from vision model"))
  end.

(** One grounding chunk as a source entry. *)
Definition toSource (c : GroundingChunk) : Source :=
  {| title := or_else (match web c with Some w => web_title w | None => None end)
                      (lit "Source");
     uri := or_else (match web c with Some w => web_uri w | None => None end)
                    [] |}.

(** A JavaScript [Map] keyed by strings: entries in insertion order;
    setting a key already present replaces its value where it stands. *)
Fixpoint Map_set {V} (k : jsstring) (v : V) (m : list (jsstring * V))
  : list (jsstring * V) :=
  match m with
  | [] => [(k, v)]
  | (k', v') :: m' =>
      if Js.eqb k' k then (k', v) :: m' else (k', v') :: Map_set k v m'
  end.

(** [new Map(entries)]: the entries are set one after the other. *)
Definition Map_step {V} (m : list (jsstring * V)) (e : jsstring * V)
  : list (jsstring * V) :=
  Map_set (fst e) (snd e) m.

Definition Map_new {V} (entries : list (jsstring * V)) : list (jsstring * V) :=
  fold_left Map_step entries [].

(** [m.get(k)] *)
Definition Map_get {V} (k : jsstring) (m : list (jsstring * V)) : option V :=
  option_map snd (find (fun e => Js.eqb (fst e) k) m).

(** [Array.from(m.values())] *)
Definition Map_values {V} (m : list (jsstring * V)) : list V := List.map snd m.

Definition groundingChunks_of (response : GenerateContentResponse)
  : list GroundingChunk :=
  match candidates response with
  | Some (c0 :: _) =>
      match groundingMetadata c0 with
      | Some gm =>
          match groundingChunks gm with
          | Some chunks => chunks
          | None => []
          end
      | None => []
      end
  | _ => []
  end.

Definition extractSources (chunks : list GroundingChunk) : list Source :=
  filter (fun s => negb (Js.eqb (uri s) [])) (List.map toSource chunks).

Definition uniqueSources (sources : list Source) : list Source :=
  Map_values (Map_new (List.map (fun item => (uri item, item)) sources)).

(** Whether converting a parsed value to a string throws.  It does for an
    object with an own [toString] key: the value under the key is never
    callable, and the [valueOf] that is reached next returns the object
    itself or is not callable either.  It does for an array one of whose
    elements does, since an array is converted by joining the conversions
    of its elements.  Every other value, [null] included, converts. *)
Fixpoint toStringThrows (v : Json) : bool :=
  match v with
  | JObject members =>
      existsb (fun kv => Js.eqb (fst kv) (lit "toString")) members
  | JArray elems => existsb toStringThrows elems
  | _ => false
  end.

(** [undefined] converts too. *)
Definition canInterpolate (v : option Json) : bool :=
  match v with
  | Some j => negb (toStringThrows j)
  | None => true
  end.

(** One substitution of the prompt's template literal. *)
Definition interpolate (rt : Runtime) (v : option Json) : M unit :=
  if canInterpolate v then ret tt
  else throw (mkExn ETypeError (Some (conversionErrorMessage rt))).

(** Step 2.  The prompt is built, name first, before the call. *)
Definition getLandmarkDetails (rt : Runtime)
    (landmarkName visualCtx : option Json) : M LandmarkFullDetails :=
  getClient rt ;;
  interpolate rt landmarkName ;;
  interpolate rt visualCtx ;;
  response <- await (send rt (DetailsRequest landmarkName visualCtx)) ;;
  let text := or_else (text response) (lit "Could not retrieve details.") in
  let chunks := groundingChunks_of response in
  let sources := extractSources chunks in
  ret {| description := text; sources := uniqueSources sources |}.

(** [response.candidates?.[0]?.content?.parts?.[0]?.inlineData?.data] *)
Definition audioData_of (response : GenerateContentResponse)
  : option jsstring :=
  match candidates response with
  | Some (c0 :: _) =>
      match content c0 with
      | Some ct =>
          match parts ct with
          | Some (p0 :: _) =>
              match inlineData p0 with
              | Some b => data b
              | None => None
              end
          | _ => None
          end
      | None => None
      end
  | _ => None
  end.

(** Step 3. *)
Definition generateNarration (rt : Runtime) (text : jsstring) : M jsstring :=
  getClient rt ;;
  response <- await (send rt (SpeechRequest text)) ;;
  match audioData_of response with
  | Some (c :: r) => ret (c :: r)
  | _ => throw (Error (lit "No audio generated"))
  end.

(* ================================================================= *)
(** ** [App.tsx] *)

(** The text sent to speech synthesis for a description. *)
Definition ttsText (description : jsstring) : jsstring :=
  if Nat.ltb 500 (List.length description)
  then substring0 500 description ++ lit "..."
  else description.

(** [v.name] / [v.visualDescription] on a parsed value: a [TypeError] on
    [null], the own property on an object, and [undefined] on a boolean,
    number, string or array, none of which has a property of either
    name. *)
Definition getProp (rt : Runtime) (v : Json) (key : jsstring)
  : M (option Json) :=
  match v with
  | JNull => throw (mkExn ETypeError (Some (typeErrorMessage rt)))
  | JObject members => ret (JSON.lookup key members)
  | _ => ret None
  end.

Definition startAnalysis (rt : Runtime) (imageBase64 : option jsstring)
  : M unit :=
  try_catch
    (update (fun st => setError st None) ;;
     update (fun st => setLandmark st None) ;;
     update (fun st => setDetails st None) ;;
     update (fun st => setAudioBuffer st None) ;;
     (* 1. Identify *)
     update (fun st => setStatus st ANALYZING_IMAGE) ;;
     idResult <- awaitRendered (identifyLandmark rt imageBase64) ;;
     update (fun st => setLandmark st (Some idResult)) ;;
     (* 2. Search Details *)
     update (fun st => setStatus st SEARCHING_INFO) ;;
     name <- getProp rt idResult (lit "name") ;;
     visualDescription <- getProp rt idResult (lit "visualDescription") ;;
     detailResult <-
       awaitRendered (getLandmarkDetails rt name visualDescription) ;;
     update (fun st => setDetails st (Some detailResult)) ;;
     (* 3. Generate Audio *)
     update (fun st => setStatus st GENERATING_AUDIO) ;;
     audioBase64 <-
       awaitRendered
         (generateNarration rt (ttsText (description detailResult))) ;;
     (* Decode Audio *)
     st <- read ;;
     ctx <- match audioContextRef st with
            | Some ctx => ret ctx
            | None =>
                ctx <- settle (createAudioContext rt 24000) ;;
                update (fun st => setAudioContextRef st (Some ctx)) ;;
                ret ctx
            end ;;
     rawBytes <- settle (decodeBase64 rt audioBase64) ;;
     buffer <-
       awaitRendered (settle (decodeAudioData rt rawBytes ctx 24000 1)) ;;
     update (fun st => setAudioBuffer st (Some buffer)) ;;
     update (fun st => setStatus st COMPLETE))
    (fun e =>
       update (fun st =>
                 setError st
                   (Some {| message :=
                              or_else (exn_message e)
                                (lit "Something went wrong during analysis.") |})) ;;
       update (fun st => setStatus st ERROR)).

(** [result.split(',')[1]] *)
Definition base64Data (result : jsstring) : option jsstring :=
  nth_error (Js.split 44 result) 1.

(** [reader.onload], with [result] the data URL the reader produced. *)
Definition onload (rt : Runtime) (result : jsstring) : M unit :=
  update (fun st => setImage st (Some result)) ;;
  startAnalysis rt (base64Data result).

(** [file] is the data URL of the chosen file, [None] when the change
    event carries no file. *)
Definition handleFileSelect (rt : Runtime) (file : option jsstring) : M unit :=
  match file with
  | None => ret tt
  | Some result => onload rt result
  end.

(** [node.stop()]: the node falls silent. *)
Definition silenced (n : SourceNode) : SourceNode :=
  {| src_buffer := src_buffer n; src_playing := false |}.

(** [stop()] on the node at index [id]. *)
Fixpoint stopNode (id : nat) (ns : list SourceNode) {struct ns}
  : list SourceNode :=
  match ns with
  | [] => []
  | n :: ns' =>
      match id with
      | O => silenced n :: ns'
      | S id' => n :: stopNode id' ns'
      end
  end.

Definition toggleAudio (st : AppState) : AppState :=
  match audioContextRef st, audioBuffer st with
  | Some ctx, Some buf =>
      if isPlaying st then
        let st1 :=
          match sourceNodeRef st with
          | Some id => setNodes st (stopNode id (nodes st))
          | None => st
          end in
        setIsPlaying st1 false
      else
        let id := List.length (nodes st) in
        let source := {| src_buffer := buf; src_playing := true |} in
        let st1 := setNodes st (nodes st ++ [source]) in
        let st2 := setSourceNodeRef st1 (Some id) in
        setIsPlaying st2 true
  | _, _ => st
  end.

(** [source.onended], for the node at index [id] once it has fallen
    silent. *)
Definition onended (id : nat) (st : AppState) : AppState :=
  setIsPlaying (setNodes st (stopNode id (nodes st))) false.

Definition resetApp (st : AppState) : AppState :=
  let st1 :=
    match sourceNodeRef st with
    | Some id => setNodes st (stopNode id (nodes st))
    | None => st
    end in
  let st2 := setIsPlaying st1 false in
  let st3 := setStatus st2 IDLE in
  let st4 := setImage st3 None in
  let st5 := setLandmark st4 None in
  let st6 := setDetails st5 None in
  match fileInputRef st6 with
  | Some _ => setFileInputRef st6 (Some [])
  | None => st6
  end.

(** Running a handler from a component state. *)
Definition run (h : M unit) (st : AppState) : World := snd (h (mkWorld st [] [])).

(** The states a handler passes through: those on screen at its
    suspensions, then the one it leaves behind. *)
Definition passes (h : M unit) (st : AppState) : list AppState :=
  frames (run h st) ++ [app (run h st)].

(** The events, and in which states they can occur.  [FileSelected] is
    the [onload] of a reader started from a file input: the inputs exist
    in the idle view only, but the reader finishes later, and with several
    reads started its [onload] can fire in any state the component is in by
    then.  The error view has the reset button, the result overlay has the
    reset and the audio buttons (the overlay is drawn only when the stored
    values are truthy; offering its buttons in every [COMPLETE] state only
    adds behaviours).  A source node may fall silent, or report that it
    has, at any time.  After each handler the render is committed.  A run
    of the pipeline is taken as a whole: the events of this model do not
    fall between the steps of a run, and two runs do not overlap. *)
Inductive Event :=
| FileSelected (rt : Runtime) (file : option jsstring)
| ToggleAudio
| Reset
| SourceEnded (id : nat).

Definition offered (st : AppState) (e : Event) : bool :=
  match e, status st with
  | FileSelected _ _, _ => true
  | ToggleAudio, COMPLETE => true
  | Reset, COMPLETE => true
  | Reset, ERROR => true
  | SourceEnded id, _ => Nat.ltb id (List.length (nodes st))
  | _, _ => false
  end.

Definition after (e : Event) (st : AppState) : list AppState :=
  match e with
  | FileSelected rt file => passes (handleFileSelect rt file) st
  | ToggleAudio => [commit (toggleAudio st)]
  | Reset => [commit (resetApp st)]
  | SourceEnded id => [commit (onended id st)]
  end.

Inductive reachable : AppState -> Prop :=
| reach_initial : reachable initial
| reach_event (st st' : AppState) (e : Event) :
    reachable st -> offered st e = true -> In st' (after e st) ->
    reachable st'.

(* ================================================================= *)
(** ** Notions the properties are stated with *)

(** Follows the spec's words: the keys in first-seen order, each once. *)
Fixpoint firstSeen (l : list jsstring) : list jsstring :=
  match l with
  | [] => []
  | x :: r => x :: filter (fun y => negb (Js.eqb y x)) (firstSeen r)
  end.

(** The entries the [Map] constructor receives. *)
Definition keyed (l : list Source) : list (jsstring * Source) :=
  List.map (fun item => (uri item, item)) l.

Definition mem (k : jsstring) (ks : list jsstring) : bool :=
  existsb (fun k' => Js.eqb k' k) ks.

(** The [responseSchema] of the vision request: an object whose [name]
    and [visualDescription] are both present and strings. *)
Definition isString (v : option Json) : bool :=
  match v with
  | Some (JString _) => true
  | _ => false
  end.

Definition matchesSchema (v : Json) : bool :=
  match v with
  | JObject members =>
      isString (JSON.lookup (lit "name") members)
      && isString (JSON.lookup (lit "visualDescription") members)
  | _ => false
  end.

(** Follows the spec's words: an inline audio payload is present in the
    response, in whichever part of whichever candidate. *)
Definition partHasAudio (p : Part) : bool :=
  match inlineData p with
  | Some b => truthy (data b)
  | None => false
  end.

Definition candidateHasAudio (c : Candidate) : bool :=
  match content c with
  | Some ct =>
      match parts ct with
      | Some ps => existsb partHasAudio ps
      | None => false
      end
  | None => false
  end.

Definition hasInlineAudio (response : GenerateContentResponse) : bool :=
  match candidates response with
  | Some cs => existsb candidateHasAudio cs
  | None => false
  end.

(** What the final statuses promise about the data. *)
Definition consistent (s : AppState) : Prop :=
  (status s = COMPLETE ->
   (exists v, landmark s = Some v /\ v <> JNull) /\
   details s <> None /\ audioBuffer s <> None /\ error s = None) /\
  (status s = ERROR ->
   exists e, error s = Some e /\ message e <> []).

(** Only the node the ref holds may be sounding. *)
Definition singlePlayback (s : AppState) : Prop :=
  forall id n, nth_error (nodes s) id = Some n -> src_playing n = true ->
               sourceNodeRef s = Some id.

(* ================================================================= *)
(** ** A concrete runtime to run the handlers on *)

Module Demo.

Definition quoted (s : jsstring) : jsstring := 34%N :: s ++ [34%N].

(** A response text that matches the schema: an object with the name
    Eiffel Tower and a one-sentence visual description. *)
Definition visionText : jsstring :=
  lit "{" ++ quoted (lit "name") ++ lit ":" ++ quoted (lit "Eiffel Tower")
  ++ lit "," ++ quoted (lit "visualDescription") ++ lit ":"
  ++ quoted (lit "An iron tower.") ++ lit "}".

Definition chunk (t u : string) : GroundingChunk :=
  {| web := Some {| web_uri := Some (lit u); web_title := Some (lit t) |} |}.

Definition chunks : list GroundingChunk :=
  [ chunk "Wikipedia" "a"; chunk "Official site" "b";
    chunk "Wikipedia (mobile)" "a"; chunk "Guide" "c";
    {| web := None |};
    {| web := Some {| web_uri := Some (lit "d"); web_title := None |} |} ].

Definition textPart (t : string) : Part :=
  {| part_text := Some (lit t); inlineData := None |}.

Definition audioPart (d : string) : Part :=
  {| part_text := None; inlineData := Some {| data := Some (lit d) |} |}.

Definition respond (vision : option jsstring) (cs : list GroundingChunk)
    (speech : list Part) (r : Request) : Outcome GenerateContentResponse :=
  match r with
  | VisionRequest _ => Ok {| text := vision; candidates := None |}
  | DetailsRequest _ _ =>
      Ok {| text := Some (lit "Built for the 1889 World's Fair.");
            candidates :=
              Some [ {| content := None;
                        groundingMetadata :=
                          Some {| groundingChunks := Some cs |} |} ] |}
  | SpeechRequest _ =>
      Ok {| text := None;
            candidates :=
              Some [ {| content := Some {| parts := Some speech |};
                        groundingMetadata := None |} ] |}
  end.

Definition runtime (key : option jsstring) (vision : option jsstring)
    (cs : list GroundingChunk) (speech : list Part) : Runtime :=
  {| API_KEY := key;
     generateContent := respond vision cs speech;
     syntaxErrorMessage := fun _ => lit "Unexpected token in JSON";
     typeErrorMessage := lit "Cannot read properties of null";
     conversionErrorMessage := lit "Cannot convert object to primitive value";
     createAudioContext := fun rate => Ok {| ctx_sampleRate := rate |};
     decodeBase64 := fun _ => Ok [0%N; 0%N; 1%N; 0%N];
     decodeAudioData :=
       fun bytes _ rate channels =>
         Ok {| sampleRate := rate; numberOfChannels := channels;
               pcm := bytes |} |}.

Definition good : Runtime :=
  runtime (Some (lit "key")) (Some visionText) chunks [audioPart "AAAB"].

Definition world0 : World := mkWorld initial [] [].

Definition dataUrl : jsstring := lit "data:image/jpeg;base64,/9j/4AAQ".

(** No credential: every remote step fails at [getClient]. *)
Definition noKey : Runtime := runtime None None [] [].

(** The state after a successful run from the initial state. *)
Definition completed : AppState :=
  app (run (handleFileSelect good (Some dataUrl)) initial).

(** ... then with the narration playing. *)
Definition playing : AppState := toggleAudio completed.

(** The state after a run that failed. *)
Definition failed : AppState :=
  app (run (handleFileSelect noKey (Some dataUrl)) initial).

(** A failed run that follows a successful one and a reset: the audio
    context exists, the buffer does not. *)
Definition failedLater : AppState :=
  app (run (handleFileSelect noKey (Some dataUrl)) (resetApp completed)).

End Demo.

(* ================================================================= *)
(** ** [components/ResultOverlay.tsx] *)

Module Overlay.

(** The label of a source chip:
    [title.length > 20 ? title.substring(0, 20) + '...' : title]. *)
Definition titleLabel (title : jsstring) : jsstring :=
  if Nat.ltb 20 (List.length title)
  then substring0 20 title ++ lit "..."
  else title.

(** What [.] of a regular expression does not match (no [s] flag): line
    feed, carriage return, line separator, paragraph separator. *)
Definition isLineTerminator (c : N) : bool :=
  N.eqb c 10 || N.eqb c 13 || N.eqb c 8232 || N.eqb c 8233.

Definition startsWithStars (s : jsstring) : bool :=
  match s with
  | a :: b :: _ => N.eqb a 42 && N.eqb b 42
  | _ => false
  end.

(** [s.endsWith("**")] *)
Definition endsWithStars (s : jsstring) : bool := startsWithStars (rev s).

(** After an opening [**]: the number of code units the lazy [.*?] takes
    before the first closing [**] it can reach without crossing a line
    terminator. *)
Fixpoint closeAt (s : jsstring) : option nat :=
  match s with
  | [] => None
  | c :: r =>
      if startsWithStars s then Some 0
      else if isLineTerminator c then None
      else option_map S (closeAt r)
  end.

(** Length of the match, anchored at the head of [s], of the pattern of
    [renderDescription]: two stars, the shortest run of characters other
    than line terminators, two stars. *)
Definition matchLength (s : jsstring) : option nat :=
  match s with
  | a :: b :: body =>
      if N.eqb a 42 && N.eqb b 42
      then option_map (fun k => k + 4) (closeAt body)
      else None
  | _ => None
  end.

(** [text.split(pattern)] with the pattern in a capture group, as the
    split algorithm runs: [pending]
    is the text since the end of the last match, [s] the text from the
    position tried next.  On a match the pending text and the captured
    match are pushed and the search goes on behind the match. *)
Fixpoint splitLoop (fuel : nat) (pending s : jsstring) : list jsstring :=
  match fuel with
  | O => [pending ++ s]
  | S fuel' =>
      match s with
      | [] => [pending]
      | c :: r =>
          match matchLength s with
          | Some len => pending :: firstn len s :: splitLoop fuel' [] (skipn len s)
          | None => splitLoop fuel' (pending ++ [c]) r
          end
      end
  end.

Definition splitBold (text : jsstring) : list jsstring :=
  splitLoop (List.length text) [] text.

(** [part.slice(2, -2)] *)
Definition slice2 (part : jsstring) : jsstring :=
  firstn (List.length part - 4) (skipn 2 part).

(** A child of the rendered description: a string, or a [<b>] element
    around a string. *)
Inductive Piece :=
| Plain (s : jsstring)
| Bold (s : jsstring).

Definition renderPart (part : jsstring) : Piece :=
  if startsWithStars part && endsWithStars part
  then Bold (slice2 part)
  else Plain part.

Definition renderDescription (text : jsstring) : list Piece :=
  List.map renderPart (splitBold text).

(** The text has two stars in a row somewhere. *)
Fixpoint hasMarker (s : jsstring) : bool :=
  match s with
  | [] => false
  | c :: r => startsWithStars s || hasMarker r
  end.

Definition stars : jsstring := [42%N; 42%N].

(** A captured match: two stars, a body free of line terminators, two
    stars. *)
Definition captured (p : jsstring) : Prop :=
  exists body, p = stars ++ body ++ stars /\
               Forall (fun c => isLineTerminator c = false) body.

(** No position of the text starts a match of the pattern. *)
Fixpoint noMatch (s : jsstring) : bool :=
  match s with
  | [] => true
  | c :: r =>
      match matchLength s with
      | Some _ => false
      | None => noMatch r
      end
  end.

End Overlay.

(* ================================================================= *)
(** ** Further notions and fixtures *)

(** Position of a status along the pipeline. *)
Definition statusRank (x : AppStatus) : nat :=
  match x with
  | IDLE => 0
  | ANALYZING_IMAGE => 1
  | SEARCHING_INFO => 2
  | GENERATING_AUDIO => 3
  | COMPLETE => 4
  | ERROR => 4
  end.

Definition inProgress (x : AppStatus) : bool :=
  match x with
  | ANALYZING_IMAGE | SEARCHING_INFO | GENERATING_AUDIO => true
  | _ => false
  end.

Fixpoint nondecreasing (l : list nat) : bool :=
  match l with
  | a :: ((b :: _) as r) => Nat.leb a b && nondecreasing r
  | _ => true
  end.

(** The requests a run may have sent, in the order of the pipeline. *)
Definition pipelineOrder (img : option jsstring) (rs : list Request) : Prop :=
  rs = [] \/
  rs = [VisionRequest img] \/
  (exists n v, rs = [VisionRequest img; DetailsRequest n v]) \/
  (exists n v t, rs = [VisionRequest img; DetailsRequest n v; SpeechRequest t]).

Definition allSilent (s : AppState) : Prop :=
  Forall (fun n => src_playing n = false) (nodes s).

(** Playback is in order: the ref points at a node that exists, only that
    node may be sounding, and none is when [isPlaying] is off. *)
Definition playbackInOrder (s : AppState) : Prop :=
  singlePlayback s /\
  (isPlaying s = false -> allSilent s) /\
  (forall id, sourceNodeRef s = Some id -> id < List.length (nodes s)).

(** What holds of the data in every state the events can reach. *)
Definition wellFormed (s : AppState) : Prop :=
  (status s = IDLE ->
   image s = None /\ landmark s = None /\ details s = None /\
   isPlaying s = false) /\
  (audioBuffer s <> None -> audioContextRef s <> None) /\
  (fileInputRef s = None <-> status s <> IDLE).

Module Fixtures.

(** The service cannot be reached: every call is rejected. *)
Definition offline : Runtime :=
  {| API_KEY := Some (lit "key");
     generateContent :=
       fun _ => Throw (mkExn EHost (Some (lit "Failed to fetch")));
     syntaxErrorMessage := fun _ => lit "Unexpected token in JSON";
     typeErrorMessage := lit "Cannot read properties of null";
     conversionErrorMessage := lit "Cannot convert object to primitive value";
     createAudioContext := fun rate => Ok {| ctx_sampleRate := rate |};
     decodeBase64 := fun _ => Ok [];
     decodeAudioData :=
       fun bytes _ rate channels =>
         Ok {| sampleRate := rate; numberOfChannels := channels;
               pcm := bytes |} |}.

(** Synthesis answers without audio: the third step fails. *)
Definition mute : Runtime :=
  Demo.runtime (Some (lit "key")) (Some Demo.visionText) Demo.chunks [].

(** The enrichment answers with an empty text and chunks of every kind:
    titled, untitled, with an empty uri, without a uri, without a [web]
    part. *)
Definition sparseChunks : list GroundingChunk :=
  [ Demo.chunk "Wikipedia" "a";
    {| web := Some {| web_uri := Some (lit "d"); web_title := None |} |};
    {| web := Some {| web_uri := Some []; web_title := Some (lit "Blank") |} |};
    {| web := Some {| web_uri := None; web_title := Some (lit "Nowhere") |} |};
    {| web := None |} ].

Definition sparseResponse : GenerateContentResponse :=
  {| text := Some [];
     candidates :=
       Some [ {| content := None;
                 groundingMetadata :=
                   Some {| groundingChunks := Some sparseChunks |} |} ] |}.

Definition sparse : Runtime :=
  {| API_KEY := Some (lit "key");
     generateContent :=
       fun r =>
         match r with
         | DetailsRequest _ _ => Ok sparseResponse
         | _ => Demo.respond (Some Demo.visionText) [] [Demo.audioPart "AAAB"] r
         end;
     syntaxErrorMessage := fun _ => lit "Unexpected token in JSON";
     typeErrorMessage := lit "Cannot read properties of null";
     conversionErrorMessage := lit "Cannot convert object to primitive value";
     createAudioContext := fun rate => Ok {| ctx_sampleRate := rate |};
     decodeBase64 := fun _ => Ok [];
     decodeAudioData :=
       fun bytes _ rate channels =>
         Ok {| sampleRate := rate; numberOfChannels := channels;
               pcm := bytes |} |}.

(** The decoder hands back the code units it is given, so that what was
    decoded can be told from the buffer. *)
Definition echo : Runtime :=
  {| API_KEY := Some (lit "key");
     generateContent :=
       Demo.respond (Some Demo.visionText) Demo.chunks [Demo.audioPart "AAAB"];
     syntaxErrorMessage := fun _ => lit "Unexpected token in JSON";
     typeErrorMessage := lit "Cannot read properties of null";
     conversionErrorMessage := lit "Cannot convert object to primitive value";
     createAudioContext := fun rate => Ok {| ctx_sampleRate := rate |};
     decodeBase64 := fun d => Ok d;
     decodeAudioData :=
       fun bytes _ rate channels =>
         Ok {| sampleRate := rate; numberOfChannels := channels;
               pcm := bytes |} |}.

(** A vision answer whose name is an object with a [toString] key. *)
Definition oddName : Json :=
  JObject [(lit "toString", JNumber (lit "1"))].

Definition oddText : jsstring :=
  lit "{" ++ Demo.quoted (lit "name") ++ lit ":{"
  ++ Demo.quoted (lit "toString") ++ lit ":1},"
  ++ Demo.quoted (lit "visualDescription") ++ lit ":"
  ++ Demo.quoted (lit "A tower.") ++ lit "}".

Definition odd : Runtime :=
  Demo.runtime (Some (lit "key")) (Some oddText) Demo.chunks
    [Demo.audioPart "AAAB"].

(** The narration is played and paused, played again, the first node then
    reports that it has ended, and the narration is played once more: two
    nodes sound, and the ref holds the later one. *)
Definition played : AppState := commit (toggleAudio Demo.completed).
Definition paused : AppState := commit (toggleAudio played).
Definition playedAgain : AppState := commit (toggleAudio paused).
Definition lateEnded : AppState := commit (onended 0 playedAgain).
Definition overlapped : AppState := commit (toggleAudio lateEnded).

End Fixtures.

(* ================================================================= *)
(** * Properties *)

(** ** [JSON.parse] never stops for lack of fuel *)

Module JSONFacts.

Ltac break_match :=
  match goal with
  | |- context [match ?x with _ => _ end] => destruct x eqn:?
  | H : context [match ?x with _ => _ end] |- _ => destruct x eqn:?
  end.

Lemma skip_ws_le (s : jsstring) : List.length (skip_ws s) <= List.length s.
Proof.
  induction s as [|c r IH]; simpl; [lia|].
  destruct (is_ws c); simpl; lia.
Qed.

Lemma skip_ws_cons (s r : jsstring) (c : N) :
  skip_ws s = c :: r -> List.length r < List.length s.
Proof.
  intros H. pose proof (skip_ws_le s) as L. rewrite H in L. simpl in L. lia.
Qed.

Lemma expect_le (w s r : jsstring) :
  expect w s = Some r -> List.length r <= List.length s.
Proof.
  revert s; induction w as [|c w IH]; intros s H; simpl in H.
  - inversion H; subst; lia.
  - destruct s as [|d s']; [discriminate|].
    destruct (N.eqb c d); [|discriminate].
    apply IH in H. simpl. lia.
Qed.

Lemma digits_le (s ds r : jsstring) :
  digits s = (ds, r) -> List.length r <= List.length s.
Proof.
  revert ds r; induction s as [|c s IH]; intros ds r H; simpl in H.
  - inversion H; subst; simpl; lia.
  - destruct (is_digit c).
    + destruct (digits s) as [ds' r'] eqn:E. inversion H; subst.
      specialize (IH _ _ eq_refl). simpl. lia.
    + inversion H; subst. lia.
Qed.

Lemma parse_chars_le (s : jsstring) :
  forall str r, parse_chars s = Some (str, r) -> List.length r <= List.length s.
Proof.
  induction s as [s IH] using (well_founded_induction
                                 (Wf_nat.well_founded_ltof _ (@List.length N))).
  unfold Wf_nat.ltof in IH.
  intros str r H. destruct s as [|c s1]; simpl in H; [discriminate|].
  repeat break_match; try discriminate;
    repeat match goal with
           | E : parse_chars ?t = Some (_, ?r') |- _ =>
               apply IH in E; [|simpl; lia]
           end;
    inversion H; subst; simpl in *; lia.
Qed.

Lemma parse_number_le (s x r : jsstring) :
  parse_number s = Some (x, r) -> List.length r <= List.length s.
Proof.
  unfold parse_number. intros H.
  repeat break_match; try discriminate;
    repeat match goal with
           | E : digits _ = (_, _) |- _ => apply digits_le in E
           | E : (_, _) = (_, _) |- _ => inversion E; subst; clear E
           | E : Some _ = Some _ |- _ => inversion E; subst; clear E
           end; simpl in *; lia.
Qed.

Lemma lift_opt_done {A B : Type} (f : A -> B) (o : option (A * jsstring))
    (b : B) (r : jsstring) :
  lift_opt f o = Done b r -> exists a, o = Some (a, r) /\ b = f a.
Proof.
  destruct o as [[a r']|]; simpl; intros H; inversion H; subst; eauto.
Qed.

Lemma lift_opt_fuel {A B : Type} (f : A -> B) (o : option (A * jsstring)) :
  lift_opt f o <> OutOfFuel.
Proof. destruct o as [[a r']|]; simpl; discriminate. Qed.

(** No parser hands back more input than it was given. *)
Lemma parse_le (fuel : nat) :
  (forall s v r, parse_value fuel s = Done v r ->
                 List.length r <= List.length s) /\
  (forall s l r, parse_elements fuel s = Done l r ->
                 List.length r <= List.length s) /\
  (forall s l r, parse_members fuel s = Done l r ->
                 List.length r <= List.length s).
Proof.
  induction fuel as [|fuel (IHv & IHe & IHm)];
    [repeat split; intros; discriminate|].
  repeat split; intros s x r H; simpl in H.
  - pose proof (skip_ws_le s) as Ls.
    destruct (skip_ws s) as [|c t] eqn:Es; [discriminate|]. simpl in Ls.
    repeat break_match; try discriminate;
      repeat match goal with
             | E : lift_opt _ _ = Done _ _ |- _ =>
                 apply lift_opt_done in E; destruct E as (? & E & ?)
             | E : option_map _ ?o = Some _ |- _ =>
                 destruct o eqn:?; simpl in E; inversion E; subst; clear E
             | E : expect _ _ = Some _ |- _ => apply expect_le in E
             | E : parse_chars _ = Some _ |- _ => apply parse_chars_le in E
             | E : parse_number _ = Some _ |- _ => apply parse_number_le in E
             | E : parse_elements _ _ = Done _ _ |- _ => apply IHe in E
             | E : parse_members _ _ = Done _ _ |- _ => apply IHm in E
             | E : skip_ws _ = _ :: _ |- _ => apply skip_ws_cons in E
             | E : Done _ _ = Done _ _ |- _ => inversion E; subst; clear E
             | E : Some _ = Some _ |- _ => inversion E; subst; clear E
             end; simpl in *; lia.
  - repeat break_match; try discriminate;
      repeat match goal with
             | E : parse_value _ _ = Done _ _ |- _ => apply IHv in E
             | E : parse_elements _ _ = Done _ _ |- _ => apply IHe in E
             | E : skip_ws _ = _ :: _ |- _ => apply skip_ws_cons in E
             | E : Done _ _ = Done _ _ |- _ => inversion E; subst; clear E
             end; simpl in *; lia.
  - repeat break_match; try discriminate;
      repeat match goal with
             | E : parse_value _ _ = Done _ _ |- _ => apply IHv in E
             | E : parse_members _ _ = Done _ _ |- _ => apply IHm in E
             | E : parse_chars _ = Some _ |- _ => apply parse_chars_le in E
             | E : skip_ws _ = _ :: _ |- _ => apply skip_ws_cons in E
             | E : Done _ _ = Done _ _ |- _ => inversion E; subst; clear E
             end; simpl in *; lia.
Qed.

(** With input of at most [n] code units, [2n+1] units of fuel are enough
    for a value and [2n+2] for a list of elements or members. *)
Lemma fuel_enough (n : nat) :
  (forall fuel s, List.length s <= n -> 2 * n + 1 <= fuel ->
                  parse_value fuel s <> OutOfFuel) /\
  (forall fuel s, List.length s <= n -> 2 * n + 2 <= fuel ->
                  parse_elements fuel s <> OutOfFuel) /\
  (forall fuel s, List.length s <= n -> 2 * n + 2 <= fuel ->
                  parse_members fuel s <> OutOfFuel).
Proof.
  induction n as [n IH] using lt_wf_ind.
  assert (V : forall fuel s, List.length s <= n -> 2 * n + 1 <= fuel ->
                             parse_value fuel s <> OutOfFuel).
  { intros fuel s Ls Lf. destruct fuel as [|fuel]; [lia|]. simpl.
    pose proof (skip_ws_le s) as Lw.
    destruct (skip_ws s) as [|c t] eqn:Es; [discriminate|]. simpl in Lw.
    destruct n as [|n]; [lia|].
    destruct (IH n ltac:(lia)) as (_ & IHe & IHm).
    repeat break_match; try discriminate; try apply lift_opt_fuel.
    - exfalso. eapply (IHe fuel t); [lia | lia | eassumption].
    - exfalso. eapply (IHm fuel t); [lia | lia | eassumption]. }
  split; [exact V|].
  split; intros fuel s Ls Lf; (destruct fuel as [|fuel]; [lia|]); simpl.
  - destruct (parse_value fuel s) as [v r| |] eqn:Ev;
      [|discriminate|exfalso; eapply (V fuel s); [lia|lia|exact Ev]].
    apply (proj1 (parse_le fuel)) in Ev.
    destruct (skip_ws r) as [|d r'] eqn:Er; [discriminate|].
    apply skip_ws_cons in Er.
    destruct (N.eqb d 44); [|destruct (N.eqb d 93); discriminate].
    destruct n as [|n]; [lia|].
    destruct (IH n ltac:(lia)) as (_ & IHe & _).
    destruct (parse_elements fuel r') eqn:Ee; try discriminate.
    exfalso. eapply (IHe fuel r'); [lia | lia | exact Ee].
  - destruct (skip_ws s) as [|q t] eqn:Es; [discriminate|].
    apply skip_ws_cons in Es.
    destruct (negb (N.eqb q 34)); [discriminate|].
    destruct (parse_chars t) as [[k r1]|] eqn:Ec; [|discriminate].
    apply parse_chars_le in Ec.
    destruct (skip_ws r1) as [|col r2] eqn:E1; [discriminate|].
    apply skip_ws_cons in E1.
    destruct (negb (N.eqb col 58)); [discriminate|].
    destruct (parse_value fuel r2) as [v r3| |] eqn:Ev;
      [|discriminate|exfalso; eapply (V fuel r2); [lia|lia|exact Ev]].
    apply (proj1 (parse_le fuel)) in Ev.
    destruct (skip_ws r3) as [|d r4] eqn:E3; [discriminate|].
    apply skip_ws_cons in E3.
    destruct (N.eqb d 44); [|destruct (N.eqb d 125); discriminate].
    destruct n as [|n]; [lia|].
    destruct (IH n ltac:(lia)) as (_ & _ & IHm).
    destruct (parse_members fuel r4) eqn:Em; try discriminate.
    exfalso. eapply (IHm fuel r4); [lia | lia | exact Em].
Qed.

(** [JSON.parse] is decided by the grammar alone: the fuel it is run with
    is never used up. *)
Lemma parse_fuel_suffices (text : jsstring) :
  parse_value (fuel_for text) text <> OutOfFuel.
Proof.
  apply (proj1 (fuel_enough (List.length text))); unfold fuel_for; lia.
Qed.

End JSONFacts.

(* ----------------------------------------------------------------- *)
(** ** The [Map] idiom that removes duplicate sources *)

Module MapFacts.

Lemma eqb_eq (a b : jsstring) : Js.eqb a b = true <-> a = b.
Proof.
  revert b; induction a as [|x a IH]; intros [|y b]; simpl;
    try (split; [discriminate|discriminate]); [tauto|].
  rewrite andb_true_iff, N.eqb_eq, IH.
  split; [intros [-> ->]; reflexivity | intros H; inversion H; auto].
Qed.

Lemma eqb_refl (a : jsstring) : Js.eqb a a = true.
Proof. apply eqb_eq; reflexivity. Qed.

Lemma eqb_neq (a b : jsstring) : Js.eqb a b = false <-> a <> b.
Proof.
  rewrite <- eqb_eq. destruct (Js.eqb a b); split; congruence.
Qed.

Lemma eqb_sym (a b : jsstring) : Js.eqb a b = Js.eqb b a.
Proof.
  destruct (Js.eqb a b) eqn:E.
  - apply eqb_eq in E; subst. symmetry; apply eqb_refl.
  - symmetry. apply eqb_neq. apply eqb_neq in E. congruence.
Qed.

Lemma mem_In (k : jsstring) (ks : list jsstring) : mem k ks = true <-> In k ks.
Proof.
  unfold mem. rewrite existsb_exists. split.
  - intros (x & Hin & E). apply eqb_eq in E; subst; exact Hin.
  - intros Hin. exists k. split; [exact Hin | apply eqb_refl].
Qed.

Lemma filter_filter {A} (f g : A -> bool) (l : list A) :
  filter f (filter g l) = filter (fun x => f x && g x) l.
Proof.
  induction l as [|x l IH]; simpl; [reflexivity|].
  destruct (g x) eqn:G; simpl; rewrite ?andb_true_r, ?andb_false_r;
    [destruct (f x)|]; rewrite IH; reflexivity.
Qed.

Lemma find_app {A} (f : A -> bool) (l1 l2 : list A) :
  find f (l1 ++ l2) = match find f l1 with
                      | Some x => Some x
                      | None => find f l2
                      end.
Proof.
  induction l1 as [|x l1 IH]; simpl; [reflexivity|].
  destruct (f x); [reflexivity | exact IH].
Qed.

Lemma NoDup_firstSeen (l : list jsstring) : NoDup (firstSeen l).
Proof.
  induction l as [|x l IH]; simpl; constructor.
  - rewrite filter_In. intros [_ H]. rewrite eqb_refl in H. discriminate.
  - apply NoDup_filter, IH.
Qed.

Lemma In_firstSeen (l : list jsstring) (k : jsstring) :
  In k (firstSeen l) <-> In k l.
Proof.
  induction l as [|x l IH]; simpl; [tauto|].
  rewrite filter_In, IH. destruct (Js.eqb k x) eqn:E.
  - apply eqb_eq in E; subst. intuition discriminate.
  - apply eqb_neq in E. intuition congruence.
Qed.

Section Fold.
Context {V : Type}.

Lemma keys_Map_set (k : jsstring) (v : V) (m : list (jsstring * V)) :
  List.map fst (Map_set k v m) =
  if mem k (List.map fst m) then List.map fst m else List.map fst m ++ [k].
Proof.
  induction m as [|[k' v'] m IH]; simpl; [reflexivity|].
  destruct (Js.eqb k' k) eqn:E; simpl; [reflexivity|].
  rewrite IH. destruct (mem k (List.map fst m)); reflexivity.
Qed.

Lemma keys_fold (es m : list (jsstring * V)) :
  List.map fst (fold_left Map_step es m) =
  List.map fst m ++
  filter (fun y => negb (mem y (List.map fst m))) (firstSeen (List.map fst es)).
Proof.
  revert m; induction es as [|[k v] es IH]; intros m; simpl.
  - symmetry; apply app_nil_r.
  - rewrite IH. unfold Map_step at 1 2; simpl. rewrite keys_Map_set.
    destruct (mem k (List.map fst m)) eqn:Hm; simpl.
    + f_equal. rewrite filter_filter. apply filter_ext. intros y.
      destruct (Js.eqb y k) eqn:E; simpl; [|symmetry; apply andb_true_r].
      apply eqb_eq in E; subst. rewrite Hm. reflexivity.
    + rewrite <- app_assoc. simpl. f_equal. f_equal.
      rewrite filter_filter. apply filter_ext. intros y.
      unfold mem. rewrite existsb_app. simpl.
      rewrite orb_false_r, negb_orb, (eqb_sym k y). reflexivity.
Qed.

Lemma get_Map_set (k k' : jsstring) (v : V) (m : list (jsstring * V)) :
  Map_get k' (Map_set k v m) =
  if Js.eqb k k' then Some v else Map_get k' m.
Proof.
  unfold Map_get. induction m as [|[k0 v0] m IH]; simpl.
  - destruct (Js.eqb k k'); reflexivity.
  - destruct (Js.eqb k0 k) eqn:E; simpl.
    + apply eqb_eq in E; subst. destruct (Js.eqb k k'); reflexivity.
    + destruct (Js.eqb k0 k') eqn:E'; simpl; [|exact IH].
      apply eqb_eq in E'; subst. rewrite eqb_sym, E. reflexivity.
Qed.

(** The value under a key is the one of the last entry with that key. *)
Lemma get_fold (k : jsstring) (es m : list (jsstring * V)) :
  Map_get k (fold_left Map_step es m) =
  match find (fun e => Js.eqb (fst e) k) (rev es) with
  | Some e => Some (snd e)
  | None => Map_get k m
  end.
Proof.
  revert m; induction es as [|[k0 v0] es IH]; intros m; simpl; [reflexivity|].
  rewrite IH, find_app. unfold Map_step at 1; simpl.
  destruct (find (fun e => Js.eqb (fst e) k) (rev es)); [reflexivity|].
  rewrite get_Map_set. destruct (Js.eqb k0 k); reflexivity.
Qed.

Lemma get_In (k : jsstring) (v : V) (m : list (jsstring * V)) :
  NoDup (List.map fst m) -> In (k, v) m -> Map_get k m = Some v.
Proof.
  unfold Map_get.
  induction m as [|[k0 v0] m IH]; simpl; intros ND Hin; [contradiction|].
  inversion ND as [|? ? Hnotin ND']; subst.
  destruct Hin as [E | Hin].
  - inversion E; subst. rewrite eqb_refl. reflexivity.
  - destruct (Js.eqb k0 k) eqn:E; [|auto].
    apply eqb_eq in E; subst. exfalso. apply Hnotin.
    apply in_map_iff. exists (k, v). auto.
Qed.

Lemma keys_Map_new (es : list (jsstring * V)) :
  List.map fst (Map_new es) = firstSeen (List.map fst es).
Proof.
  unfold Map_new.
  rewrite keys_fold. simpl. apply filter_true.
Qed.

Lemma In_Map_set (k : jsstring) (v : V) (m : list (jsstring * V))
    (e : jsstring * V) :
  In e (Map_set k v m) -> e = (k, v) \/ In e m.
Proof.
  induction m as [|[k0 v0] m IH]; simpl.
  - intros [H | []]; auto.
  - destruct (Js.eqb k0 k) eqn:E; simpl.
    + apply eqb_eq in E; subst. intros [H | H]; auto.
    + intros [H | H]; auto. destruct (IH H); auto.
Qed.

Lemma In_fold (es m : list (jsstring * V)) (e : jsstring * V) :
  In e (fold_left Map_step es m) -> In e es \/ In e m.
Proof.
  revert m; induction es as [|e0 es IH]; intros m; simpl; [auto|].
  intros H. destruct (IH _ H) as [H1 | H1]; [auto|].
  destruct (In_Map_set _ _ _ _ H1) as [-> | H2]; [|auto].
  left; left. destruct e0; reflexivity.
Qed.

End Fold.

Lemma find_map {A B} (f : A -> B) (p : B -> bool) (l : list A) :
  find p (List.map f l) = option_map f (find (fun x => p (f x)) l).
Proof.
  induction l as [|x l IH]; simpl; [reflexivity|].
  destruct (p (f x)); [reflexivity | exact IH].
Qed.

(** *** [uniqueSources] *)

Lemma keyed_keys (l : list Source) : List.map fst (keyed l) = List.map uri l.
Proof. unfold keyed. rewrite map_map. reflexivity. Qed.

Lemma Map_new_keyed_In (l : list Source) (k : jsstring) (s : Source) :
  In (k, s) (Map_new (keyed l)) -> k = uri s /\ In s l.
Proof.
  intros H. apply In_fold in H. destruct H as [H | []].
  unfold keyed in H. apply in_map_iff in H. destruct H as (x & E & Hx).
  inversion E; subst. auto.
Qed.

Lemma uniqueSources_uris (l : list Source) :
  List.map uri (uniqueSources l) = firstSeen (List.map uri l).
Proof.
  unfold uniqueSources, Map_values. fold (keyed l).
  rewrite <- (keyed_keys l), <- keys_Map_new, map_map.
  apply map_ext_in. intros [k s] H. apply Map_new_keyed_In in H.
  simpl. symmetry; tauto.
Qed.

Lemma uniqueSources_NoDup (l : list Source) :
  NoDup (List.map uri (uniqueSources l)).
Proof. rewrite uniqueSources_uris. apply NoDup_firstSeen. Qed.

Lemma uniqueSources_In (l : list Source) (s : Source) :
  In s (uniqueSources l) -> In s l.
Proof.
  unfold uniqueSources, Map_values. fold (keyed l).
  intros H. apply in_map_iff in H. destruct H as ([k s'] & E & H).
  simpl in E; subst. apply Map_new_keyed_In in H. tauto.
Qed.

(** The entry kept for a uri is the last one of the input with that uri. *)
Lemma uniqueSources_last (l : list Source) (s : Source) :
  In s (uniqueSources l) ->
  find (fun x => Js.eqb (uri x) (uri s)) (rev l) = Some s.
Proof.
  unfold uniqueSources, Map_values. fold (keyed l).
  intros H. apply in_map_iff in H. destruct H as ([k s'] & E & H).
  simpl in E; subst s'.
  assert (K : k = uri s) by (apply Map_new_keyed_In in H; tauto). subst k.
  apply get_In in H.
  2:{ rewrite keys_Map_new. apply NoDup_firstSeen. }
  unfold Map_new in H. rewrite get_fold in H.
  unfold keyed in H. rewrite <- map_rev, find_map in H. simpl in H.
  destruct (find (fun x => Js.eqb (uri x) (uri s)) (rev l)) as [s'|];
    simpl in H; [|discriminate].
  inversion H; reflexivity.
Qed.

Lemma firstSeen_abac (a b c : jsstring) :
  a <> b -> a <> c -> b <> c -> firstSeen [a; b; a; c] = [a; b; c].
Proof.
  intros Hab Hac Hbc. simpl.
  repeat match goal with
         | |- context [Js.eqb ?x ?y] =>
             let E := fresh in
             destruct (Js.eqb x y) eqn:E;
             [apply eqb_eq in E | apply eqb_neq in E];
             try congruence; simpl
         end.
  reflexivity.
Qed.

End MapFacts.


(* ----------------------------------------------------------------- *)
(** ** The service functions *)

Module ServiceFacts.
Import MapFacts.

Lemma truthy_or_else (x : option jsstring) (d : jsstring) :
  (truthy x = true -> x = Some (or_else x d)) /\
  (truthy x = false -> or_else x d = d).
Proof. destruct x as [[|c r]|]; simpl; split; congruence. Qed.

Lemma or_else_nonempty (x : option jsstring) (d : jsstring) :
  d <> [] -> or_else x d <> [].
Proof. destruct x as [[|c r]|]; simpl; congruence. Qed.

Lemma getLandmarkDetails_returns (rt : Runtime) (n c : option Json)
    (w : World) (response : GenerateContentResponse) :
  truthy (API_KEY rt) = true ->
  canInterpolate n = true -> canInterpolate c = true ->
  generateContent rt (DetailsRequest n c) = Ok response ->
  fst (getLandmarkDetails rt n c w) =
  Ok {| description :=
          or_else (text response) (lit "Could not retrieve details.");
        sources := uniqueSources (extractSources (groundingChunks_of response)) |}.
Proof.
  intros K Hn Hc G.
  unfold getLandmarkDetails, getClient, interpolate, bind, await, send, ret.
  rewrite K, Hn, Hc. simpl. rewrite G. reflexivity.
Qed.

Lemma identifyLandmark_after_call (rt : Runtime) (img : option jsstring)
    (w : World) (response : GenerateContentResponse) :
  truthy (API_KEY rt) = true ->
  generateContent rt (VisionRequest img) = Ok response ->
  fst (identifyLandmark rt img w) =
  match text response with
  | Some (c :: r) =>
      match JSON.parse (c :: r) with
      | Some v => Ok v
      | None => Throw (mkExn ESyntaxError (Some (syntaxErrorMessage rt (c :: r))))
      end
  | _ => Throw (Error (lit "No response from vision model"))
  end.
Proof.
  intros K G. unfold identifyLandmark, getClient, bind, await, send, ret, throw.
  rewrite K. simpl. rewrite G.
  destruct (text response) as [[|c r]|]; try reflexivity.
  destruct (JSON.parse (c :: r)); reflexivity.
Qed.

Lemma generateNarration_after_call (rt : Runtime) (t : jsstring)
    (w : World) (response : GenerateContentResponse) :
  truthy (API_KEY rt) = true ->
  generateContent rt (SpeechRequest t) = Ok response ->
  fst (generateNarration rt t w) =
  match audioData_of response with
  | Some (c :: r) => Ok (c :: r)
  | _ => Throw (Error (lit "No audio generated"))
  end.
Proof.
  intros K G. unfold generateNarration, getClient, bind, await, send, ret, throw.
  rewrite K. simpl. rewrite G.
  destruct (audioData_of response) as [[|c r]|]; reflexivity.
Qed.

(** An entry of [extractSources] comes from a chunk that has a [web] part
    with that uri, and carries its title or the default one. *)
Lemma extractSources_In (chunks : list GroundingChunk) (s : Source) :
  In s (extractSources chunks) ->
  uri s <> [] /\
  exists ch wb,
    In ch chunks /\ web ch = Some wb /\ web_uri wb = Some (uri s) /\
    (truthy (web_title wb) = true -> web_title wb = Some (title s)) /\
    (truthy (web_title wb) = false -> title s = lit "Source").
Proof.
  unfold extractSources. rewrite filter_In, in_map_iff.
  intros [(ch & E & Hin) Hne]. subst s.
  assert (U : uri (toSource ch) <> []).
  { intros U. rewrite U in Hne. discriminate. }
  split; [exact U|].
  destruct ch as [[[u t]|]]; simpl in *; [|congruence].
  exists {| web := Some {| web_uri := u; web_title := t |} |},
         {| web_uri := u; web_title := t |}.
  simpl. repeat split; auto.
  - destruct u as [[|c r]|]; simpl in *; congruence.
  - apply (proj1 (truthy_or_else t (lit "Source"))).
  - apply (proj2 (truthy_or_else t (lit "Source"))).
Qed.

(** Nothing but entries with an empty uri is dropped. *)
Lemma extractSources_complete (chunks : list GroundingChunk)
    (ch : GroundingChunk) (wb : Web) (u : jsstring) :
  In ch chunks -> web ch = Some wb -> web_uri wb = Some u -> u <> [] ->
  In u (List.map uri (extractSources chunks)).
Proof.
  intros Hin W U Hne. apply in_map_iff. exists (toSource ch).
  assert (E : uri (toSource ch) = u).
  { unfold toSource; simpl. rewrite W, U. destruct u; simpl; congruence. }
  split; [exact E|].
  unfold extractSources. apply filter_In. split.
  - apply in_map, Hin.
  - rewrite E. destruct u; [congruence | reflexivity].
Qed.

Lemma audioData_present (response : GenerateContentResponse) :
  truthy (audioData_of response) = true -> hasInlineAudio response = true.
Proof.
  unfold audioData_of, hasInlineAudio.
  destruct (candidates response) as [[|c0 cs]|]; simpl; try discriminate.
  unfold candidateHasAudio at 1.
  destruct (content c0) as [ct|]; simpl; try discriminate.
  destruct (parts ct) as [[|p0 ps]|]; simpl; try discriminate.
  unfold partHasAudio at 1.
  destruct (inlineData p0) as [b|]; simpl; try discriminate.
  intros ->. reflexivity.
Qed.

End ServiceFacts.

(* ----------------------------------------------------------------- *)
(** ** The handlers of [App] *)

Module AppFacts.
Import ServiceFacts.

#[local] Arguments JSON.parse : simpl never.
#[local] Arguments JSON.lookup : simpl never.
#[local] Arguments ttsText : simpl never.
#[local] Arguments uniqueSources : simpl never.
#[local] Arguments extractSources : simpl never.
#[local] Arguments lit : simpl never.
#[local] Arguments or_else : simpl never.
#[local] Arguments toStringThrows : simpl never.

(** Runs a handler symbolically: unfolds the monad and splits on every
    outcome the runtime can produce, innermost first. *)
Ltac symbolic_run :=
  unfold passes, run, startAnalysis, try_catch, identifyLandmark,
    getLandmarkDetails, generateNarration, getClient, getProp, interpolate,
    awaitRendered, await, send, settle, update, read, bind, ret, throw,
    commit;
  repeat (cbn in *;
          match goal with
          | |- context [match ?x with _ => _ end] =>
              lazymatch x with
              | context [match _ with _ => _ end] => fail
              | _ => destruct x eqn:?
              end
          end).

Lemma message_nonempty (x : option jsstring) :
  or_else x (lit "Something went wrong during analysis.") <> [].
Proof. apply or_else_nonempty. intros H; vm_compute in H; discriminate H. Qed.

Ltac consistent_now :=
  unfold consistent; cbn; split; intros E;
  first
    [ discriminate E
    | eexists; split; [reflexivity | apply message_nonempty]
    | split;
      [ eexists; split; [reflexivity | discriminate]
      | repeat split; first [discriminate | reflexivity] ] ].

(** Every state a run passes through is consistent, and the run ends in
    one of the two final statuses. *)
Lemma startAnalysis_passes (rt : Runtime) (img : option jsstring)
    (st : AppState) :
  Forall consistent (passes (startAnalysis rt img) st) /\
  (status (app (run (startAnalysis rt img) st)) = COMPLETE \/
   status (app (run (startAnalysis rt img) st)) = ERROR).
Proof.
  symbolic_run.
  all: split; [|auto].
  all: repeat (apply Forall_cons || apply Forall_nil).
  all: consistent_now.
Qed.

(** The speech request of a run carries [ttsText] of the description that
    the run stored. *)
Lemma startAnalysis_speech (rt : Runtime) (img : option jsstring)
    (st : AppState) (t : jsstring) :
  In (SpeechRequest t) (requests (run (startAnalysis rt img) st)) ->
  exists det,
    details (app (run (startAnalysis rt img) st)) = Some det /\
    t = ttsText (description det).
Proof.
  symbolic_run.
  all: intros H; cbn in H;
    repeat match goal with
           | H : _ \/ _ |- _ => destruct H as [H | H]
           | H : False |- _ => contradiction
           | H : _ = SpeechRequest _ |- _ => inversion H; subst; clear H
           end.
  all: eexists; split; reflexivity.
Qed.

Lemma startAnalysis_first_request (rt : Runtime) (img : option jsstring)
    (st : AppState) :
  truthy (API_KEY rt) = true ->
  hd_error (requests (run (startAnalysis rt img) st)) = Some (VisionRequest img).
Proof.
  intros K. revert K. symbolic_run; intros K; try discriminate K; reflexivity.
Qed.

Lemma run_onload (rt : Runtime) (result : jsstring) (st : AppState) :
  run (onload rt result) st =
  run (startAnalysis rt (base64Data result)) (setImage st (Some result)).
Proof. reflexivity. Qed.

Lemma passes_onload (rt : Runtime) (result : jsstring) (st : AppState) :
  passes (onload rt result) st =
  passes (startAnalysis rt (base64Data result)) (setImage st (Some result)).
Proof. reflexivity. Qed.

(** *** [split] *)

Lemma split_no_sep (sep : N) (s : jsstring) :
  ~ In sep s -> Js.split sep s = [s].
Proof.
  induction s as [|c r IH]; simpl; intros H; [reflexivity|].
  destruct (N.eqb c sep) eqn:E.
  - apply N.eqb_eq in E. tauto.
  - rewrite IH by tauto. reflexivity.
Qed.

Lemma split_at_first (sep : N) (header rest : jsstring) :
  ~ In sep header ->
  Js.split sep (header ++ sep :: rest) = header :: Js.split sep rest.
Proof.
  induction header as [|c r IH]; simpl; intros H.
  - rewrite N.eqb_refl. reflexivity.
  - destruct (N.eqb c sep) eqn:E.
    + apply N.eqb_eq in E. tauto.
    + rewrite IH by tauto. reflexivity.
Qed.

(** *** Audio nodes *)

Lemma stopNode_nth (id j : nat) (ns : list SourceNode) :
  nth_error (stopNode id ns) j =
  if Nat.eqb j id then option_map silenced (nth_error ns j)
  else nth_error ns j.
Proof.
  revert id j; induction ns as [|n ns IH]; intros id j; simpl.
  - destruct j; destruct (Nat.eqb _ id); reflexivity.
  - destruct id as [|id]; destruct j as [|j]; simpl; try reflexivity.
    apply IH.
Qed.

Lemma resetApp_nodes (st : AppState) :
  nodes (resetApp st) =
  match sourceNodeRef st with
  | Some id => stopNode id (nodes st)
  | None => nodes st
  end.
Proof.
  unfold resetApp.
  destruct (sourceNodeRef st); simpl; destruct (fileInputRef st); reflexivity.
Qed.

(** *** The statuses stay consistent along every sequence of events *)

Lemma toggleAudio_keeps (st : AppState) :
  status (toggleAudio st) = status st /\
  landmark (toggleAudio st) = landmark st /\
  details (toggleAudio st) = details st /\
  audioBuffer (toggleAudio st) = audioBuffer st /\
  error (toggleAudio st) = error st /\
  image (toggleAudio st) = image st.
Proof.
  unfold toggleAudio.
  destruct (audioContextRef st), (audioBuffer st) eqn:B, (isPlaying st),
    (sourceNodeRef st); simpl; rewrite ?B; repeat split; reflexivity.
Qed.


(** Committing a render touches the file input ref and nothing else. *)
Lemma commit_keeps (s : AppState) :
  status (commit s) = status s /\ image (commit s) = image s /\
  error (commit s) = error s /\ landmark (commit s) = landmark s /\
  details (commit s) = details s /\ audioBuffer (commit s) = audioBuffer s /\
  isPlaying (commit s) = isPlaying s /\
  audioContextRef (commit s) = audioContextRef s /\
  sourceNodeRef (commit s) = sourceNodeRef s /\ nodes (commit s) = nodes s.
Proof.
  unfold commit. destruct (status s) eqn:E; try destruct (fileInputRef s);
    simpl; rewrite ?E; repeat split; reflexivity.
Qed.




End AppFacts.

(* ================================================================= *)
(** * The claims about the services *)

Import MapFacts ServiceFacts.

(** C1, as the code has it.  The sources returned by [getLandmarkDetails]
    are the entries extracted from the response with duplicates by uri
    removed: the uris appear in first-seen order, each exactly once (uris
    [a,b,a,c] give [a,b,c]); the entry kept for a uri, and so its title, is
    the one of the LAST occurrence of that uri in the input.  (The call
    returns whenever a credential is there, the two arguments can be
    written into the prompt and the remote call answers.) *)
Theorem sources_unique_by_uri_last_entry_kept :
  (forall srcs : list Source,
      List.map uri (uniqueSources srcs) = firstSeen (List.map uri srcs) /\
      NoDup (List.map uri (uniqueSources srcs)) /\
      (forall s, In s (uniqueSources srcs) ->
                 find (fun x => Js.eqb (uri x) (uri s)) (rev srcs) = Some s) /\
      (forall a b c, a <> b -> a <> c -> b <> c ->
                     List.map uri srcs = [a; b; a; c] ->
                     List.map uri (uniqueSources srcs) = [a; b; c])) /\
  (forall (rt : Runtime) (n c : option Json) (w : World)
          (response : GenerateContentResponse),
      truthy (API_KEY rt) = true ->
      canInterpolate n = true -> canInterpolate c = true ->
      generateContent rt (DetailsRequest n c) = Ok response ->
      exists d,
        fst (getLandmarkDetails rt n c w) = Ok d /\
        sources d = uniqueSources (extractSources (groundingChunks_of response))).
Proof.
  split.
  - intros srcs. repeat split.
    + apply uniqueSources_uris.
    + apply uniqueSources_NoDup.
    + apply uniqueSources_last.
    + intros a b c Hab Hac Hbc E.
      rewrite uniqueSources_uris, E. apply firstSeen_abac; assumption.
  - intros rt n c w response K Hn Hc G. eexists. split.
    + apply getLandmarkDetails_returns; eassumption.
    + reflexivity.
Qed.

Lemma sources_unique_by_uri_witness :
  let rt := Demo.good in
  truthy (API_KEY rt) = true /\
  canInterpolate None = true /\
  (exists response,
      generateContent rt (DetailsRequest None None) = Ok response /\
      List.map uri (extractSources (groundingChunks_of response))
      = [lit "a"; lit "b"; lit "a"; lit "c"; lit "d"]) /\
  exists d,
    fst (getLandmarkDetails rt None None Demo.world0) = Ok d /\
    List.map uri (sources d) = [lit "a"; lit "b"; lit "c"; lit "d"] /\
    List.map title (sources d)
    = [lit "Wikipedia (mobile)"; lit "Official site"; lit "Guide"; lit "Source"].
Proof.
  split; [reflexivity|]. split; [reflexivity|].
  split; [eexists; split; reflexivity|].
  destruct (proj2 sources_unique_by_uri_last_entry_kept
              Demo.good None None Demo.world0 _ eq_refl eq_refl eq_refl
              eq_refl)
    as (d & E & S).
  exists d. split; [exact E|]. rewrite S. split; vm_compute; reflexivity.
Defined.

(** C1 as stated fails: of two entries with the same uri it is the second
    one, with its title, that is returned. *)
Lemma first_occurrence_title_is_replaced :
  let first := {| title := lit "Wikipedia"; uri := lit "a" |} in
  let second := {| title := lit "Wikipedia (mobile)"; uri := lit "a" |} in
  let rt := Demo.runtime (Some (lit "key")) None
              [Demo.chunk "Wikipedia" "a"; Demo.chunk "Wikipedia (mobile)" "a"]
              [] in
  exists response d,
    generateContent rt (DetailsRequest None None) = Ok response /\
    extractSources (groundingChunks_of response) = [first; second] /\
    fst (getLandmarkDetails rt None None Demo.world0) = Ok d /\
    sources d = [second] /\
    ~ In first (sources d).
Proof.
  cbv zeta. eexists. eexists.
  split; [reflexivity|]. split; [reflexivity|]. split; [reflexivity|].
  split; [reflexivity|].
  vm_compute. intros [H | []]. discriminate H.
Qed.

(** C6.  [getLandmarkDetails] returns the response text as the description,
    or the fixed fallback when the text is missing or empty.  With the
    grounding chunks of the first candidate at hand, every source returned
    has a non-empty uri and comes from a chunk with that uri, with the
    chunk's title or ["Source"] when the chunk has none; every non-empty
    uri of a chunk is represented; with no chunks the list is empty.  When
    the response has no candidate, no grounding metadata or no chunk list,
    the list is empty too.  (The call returns whenever a credential is
    there, the two arguments can be written into the prompt and the remote
    call answers.) *)
Theorem getLandmarkDetails_maps_filters_and_defaults :
  forall (rt : Runtime) (n c : option Json) (w : World)
         (response : GenerateContentResponse),
    truthy (API_KEY rt) = true ->
    canInterpolate n = true -> canInterpolate c = true ->
    generateContent rt (DetailsRequest n c) = Ok response ->
    exists d,
      fst (getLandmarkDetails rt n c w) = Ok d /\
      (truthy (text response) = true -> text response = Some (description d)) /\
      (truthy (text response) = false ->
       description d = lit "Could not retrieve details.") /\
      (forall c0 rest gm chunks,
         candidates response = Some (c0 :: rest) ->
         groundingMetadata c0 = Some gm ->
         groundingChunks gm = Some chunks ->
         (forall s, In s (sources d) ->
            uri s <> [] /\
            exists ch wb,
              In ch chunks /\ web ch = Some wb /\
              web_uri wb = Some (uri s) /\
              (truthy (web_title wb) = true ->
               web_title wb = Some (title s)) /\
              (truthy (web_title wb) = false -> title s = lit "Source")) /\
         (forall ch wb u,
            In ch chunks -> web ch = Some wb ->
            web_uri wb = Some u -> u <> [] ->
            In u (List.map uri (sources d))) /\
         (chunks = [] -> sources d = [])) /\
      ((candidates response = None \/ candidates response = Some [] \/
        exists c0 rest,
          candidates response = Some (c0 :: rest) /\
          (groundingMetadata c0 = None \/
           exists gm, groundingMetadata c0 = Some gm /\
                      groundingChunks gm = None)) ->
       sources d = []).
Proof.
  intros rt n c w response K Hn Hc G. eexists. split.
  { apply getLandmarkDetails_returns; eassumption. }
  cbn [description sources].
  split; [apply (proj1 (truthy_or_else _ _))|].
  split; [apply (proj2 (truthy_or_else _ _))|].
  split.
  - intros c0 rest gm chunks C M Ch.
    assert (E : groundingChunks_of response = chunks).
    { unfold groundingChunks_of. rewrite C, M, Ch. reflexivity. }
    rewrite E. split; [|split].
    + intros s H. apply uniqueSources_In, extractSources_In in H. exact H.
    + intros ch wb u Hin W U Hne.
      rewrite uniqueSources_uris. apply In_firstSeen.
      eapply extractSources_complete; eassumption.
    + intros ->. reflexivity.
  - intros H.
    assert (E : groundingChunks_of response = []).
    { unfold groundingChunks_of.
      destruct H as [-> | [-> | (c0 & rest & -> & [-> | (gm & -> & ->)])]];
        reflexivity. }
    rewrite E. reflexivity.
Qed.

Lemma getLandmarkDetails_witness :
  truthy (API_KEY Fixtures.sparse) = true /\
  canInterpolate None = true /\
  generateContent Fixtures.sparse (DetailsRequest None None)
  = Ok Fixtures.sparseResponse /\
  exists d,
    fst (getLandmarkDetails Fixtures.sparse None None Demo.world0) = Ok d /\
    description d = lit "Could not retrieve details." /\
    sources d = [ {| title := lit "Wikipedia"; uri := lit "a" |};
                  {| title := lit "Source"; uri := lit "d" |} ] /\
    In (lit "d") (List.map uri (sources d)).
Proof.
  split; [reflexivity|]. split; [reflexivity|]. split; [reflexivity|].
  destruct (@getLandmarkDetails_maps_filters_and_defaults
              Fixtures.sparse None None Demo.world0 Fixtures.sparseResponse
              eq_refl eq_refl eq_refl eq_refl)
    as (d & E & _ & D & S & _).
  exists d. split; [exact E|]. split; [exact (D eq_refl)|].
  split.
  - vm_compute in E. inversion E. reflexivity.
  - destruct (S _ _ _ _ eq_refl eq_refl eq_refl) as (_ & Complete & _).
    apply (Complete
             {| web := Some {| web_uri := Some (lit "d");
                               web_title := None |} |}
             {| web_uri := Some (lit "d"); web_title := None |} (lit "d"));
      [right; left; reflexivity | reflexivity | reflexivity |].
    intros H; vm_compute in H; discriminate H.
Defined.

(** C3, as the code has it.  Once the vision call has answered,
    [identifyLandmark] throws ["No response from vision model"] when the
    response has no text (missing or empty), throws a [SyntaxError] when the
    text is not valid JSON, and returns the parsed value when the text is
    valid JSON, whatever its shape: the value is not checked against the
    two-field schema, so a value matching the schema is returned as parsed
    and so is one that does not match. *)
Theorem identifyLandmark_fails_on_no_text_or_invalid_json :
  forall (rt : Runtime) (img : option jsstring) (w : World)
         (response : GenerateContentResponse),
    truthy (API_KEY rt) = true ->
    generateContent rt (VisionRequest img) = Ok response ->
    (truthy (text response) = false ->
     fst (identifyLandmark rt img w)
     = Throw (Error (lit "No response from vision model"))) /\
    (forall t, text response = Some t -> t <> [] -> JSON.parse t = None ->
               fst (identifyLandmark rt img w)
               = Throw (mkExn ESyntaxError (Some (syntaxErrorMessage rt t)))) /\
    (forall t v, text response = Some t -> t <> [] -> JSON.parse t = Some v ->
                 fst (identifyLandmark rt img w) = Ok v) /\
    (forall v, fst (identifyLandmark rt img w) = Ok v ->
               exists t, text response = Some t /\ JSON.parse t = Some v).
Proof.
  intros rt img w response K G.
  rewrite (@identifyLandmark_after_call rt img w response K G).
  repeat split.
  - destruct (text response) as [[|c r]|]; simpl; congruence.
  - intros t T Hne P. rewrite T. destruct t as [|c r]; [congruence|].
    rewrite P. reflexivity.
  - intros t v T Hne P. rewrite T. destruct t as [|c r]; [congruence|].
    rewrite P. reflexivity.
  - intros v. destruct (text response) as [[|c r]|]; try discriminate.
    destruct (JSON.parse (c :: r)) as [v'|] eqn:P; [|discriminate].
    intros E; inversion E; subst. eauto.
Qed.

Lemma identifyLandmark_witness :
  let rt := Demo.good in
  truthy (API_KEY rt) = true /\
  generateContent rt (VisionRequest None)
  = Ok {| text := Some Demo.visionText; candidates := None |} /\
  exists v,
    fst (identifyLandmark rt None Demo.world0) = Ok v /\
    matchesSchema v = true /\
    JSON.lookup (lit "name") (match v with JObject m => m | _ => [] end)
    = Some (JString (lit "Eiffel Tower")).
Proof.
  split; [reflexivity|]. split; [reflexivity|].
  destruct (identifyLandmark_fails_on_no_text_or_invalid_json
              Demo.good None Demo.world0 eq_refl eq_refl)
    as (_ & _ & R & _).
  eexists. split.
  - apply (R Demo.visionText); [reflexivity | discriminate | vm_compute; reflexivity].
  - split; vm_compute; reflexivity.
Defined.

(** C3 as stated fails: the text [{}] is valid JSON that does not match
    the schema, and it is returned, not rejected. *)
Lemma identifyLandmark_returns_schema_mismatch :
  let rt := Demo.runtime (Some (lit "key")) (Some (lit "{}")) [] [] in
  JSON.parse (lit "{}") = Some (JObject []) /\
  matchesSchema (JObject []) = false /\
  fst (identifyLandmark rt None Demo.world0) = Ok (JObject []).
Proof. repeat split; vm_compute; reflexivity. Qed.

(** C7, as the code has it.  Once the synthesis call has answered,
    [generateNarration] throws ["No audio generated"] if and only if the
    FIRST part of the FIRST candidate carries no non-empty inline data; when
    it does, that data is returned unchanged.  In particular it throws when
    the response has no inline audio at all. *)
Theorem generateNarration_fails_iff_first_part_has_no_audio :
  forall (rt : Runtime) (t : jsstring) (w : World)
         (response : GenerateContentResponse),
    truthy (API_KEY rt) = true ->
    generateContent rt (SpeechRequest t) = Ok response ->
    (fst (generateNarration rt t w) = Throw (Error (lit "No audio generated"))
     <-> truthy (audioData_of response) = false) /\
    (forall d, audioData_of response = Some d -> d <> [] ->
               fst (generateNarration rt t w) = Ok d) /\
    (hasInlineAudio response = false ->
     fst (generateNarration rt t w) = Throw (Error (lit "No audio generated"))).
Proof.
  intros rt t w response K G.
  rewrite (@generateNarration_after_call rt t w response K G).
  pose proof (audioData_present response) as P.
  destruct (audioData_of response) as [[|c r]|]; simpl in *.
  - repeat split; intros; congruence.
  - split; [split; intros; discriminate|].
    split; [intros d E _; inversion E; reflexivity|].
    intros H. rewrite (P eq_refl) in H. discriminate.
  - repeat split; intros; congruence.
Qed.

Lemma generateNarration_witness :
  let rt := Demo.good in
  truthy (API_KEY rt) = true /\
  (exists response,
      generateContent rt (SpeechRequest (lit "Hello")) = Ok response /\
      audioData_of response = Some (lit "AAAB")) /\
  fst (generateNarration rt (lit "Hello") Demo.world0) = Ok (lit "AAAB").
Proof.
  split; [reflexivity|]. split; [eexists; split; reflexivity|].
  apply (proj1 (proj2 (generateNarration_fails_iff_first_part_has_no_audio
                         Demo.good (lit "Hello") Demo.world0 eq_refl eq_refl)));
    [reflexivity | discriminate].
Defined.

(** C7 as stated fails: with the audio in the second part of the response
    a payload is present, and the call still throws. *)
Lemma generateNarration_misses_audio_in_later_part :
  let rt := Demo.runtime (Some (lit "key")) None []
              [Demo.textPart "Here is the narration."; Demo.audioPart "AAAB"] in
  exists response,
    generateContent rt (SpeechRequest (lit "Hello")) = Ok response /\
    hasInlineAudio response = true /\
    fst (generateNarration rt (lit "Hello") Demo.world0)
    = Throw (Error (lit "No audio generated")).
Proof.
  cbv zeta. eexists. split; [reflexivity|]. split; vm_compute; reflexivity.
Qed.

(* ================================================================= *)
(** * The claims about the component *)

Import AppFacts.

(** C2, as the code has it.  From every state, and so from every non-idle
    one, [resetApp] yields status [IDLE] with the image, the analysis
    result and the details [null] and [isPlaying] false, and stops the
    source node held by [sourceNodeRef] if there is one, so that no node
    sounds afterwards when that node was the only one sounding.  The error
    is NOT cleared: [resetApp] leaves [error] (and [audioBuffer]) as they
    were; the error is cleared when the next analysis starts.  Nothing is
    said here of a node that sounds without being held by the ref. *)
Theorem resetApp_resets_all_but_error :
  forall st : AppState,
    status (resetApp st) = IDLE /\
    image (resetApp st) = None /\
    landmark (resetApp st) = None /\
    details (resetApp st) = None /\
    isPlaying (resetApp st) = false /\
    (forall id n, sourceNodeRef st = Some id ->
                  nth_error (nodes (resetApp st)) id = Some n ->
                  src_playing n = false) /\
    (singlePlayback st ->
     Forall (fun n => src_playing n = false) (nodes (resetApp st))) /\
    error (resetApp st) = error st /\
    audioBuffer (resetApp st) = audioBuffer st.
Proof.
  intros st.
  assert (F : status (resetApp st) = IDLE /\ image (resetApp st) = None /\
              landmark (resetApp st) = None /\ details (resetApp st) = None /\
              isPlaying (resetApp st) = false /\
              error (resetApp st) = error st /\
              audioBuffer (resetApp st) = audioBuffer st).
  { unfold resetApp. destruct (sourceNodeRef st); simpl;
      destruct (fileInputRef st); simpl; repeat split; reflexivity. }
  destruct F as (F1 & F2 & F3 & F4 & F5 & F6 & F7).
  repeat (split; [assumption|]).
  split; [|split; [|split; assumption]].
  - intros id n R. rewrite resetApp_nodes, R, stopNode_nth, Nat.eqb_refl.
    destruct (nth_error (nodes st) id); simpl; intros E; inversion E.
    reflexivity.
  - intros SP. apply Forall_forall. intros n Hin.
    apply In_nth_error in Hin. destruct Hin as [j Hj].
    rewrite resetApp_nodes in Hj.
    destruct (src_playing n) eqn:P; [exfalso | reflexivity].
    destruct (sourceNodeRef st) as [id|] eqn:R.
    + rewrite stopNode_nth in Hj. destruct (Nat.eqb j id) eqn:J.
      * destruct (nth_error (nodes st) j); simpl in Hj; inversion Hj; subst.
        simpl in P. discriminate.
      * specialize (SP j n Hj P). rewrite R in SP. inversion SP; subst.
        rewrite Nat.eqb_refl in J. discriminate.
    + specialize (SP j n Hj P). rewrite R in SP. discriminate.
Qed.

Lemma resetApp_witness :
  (status Demo.playing = COMPLETE /\ isPlaying Demo.playing = true /\
   sourceNodeRef Demo.playing = Some 0 /\
   List.map src_playing (nodes Demo.playing) = [true]) /\
  singlePlayback Demo.playing /\
  status (resetApp Demo.playing) = IDLE /\
  isPlaying (resetApp Demo.playing) = false /\
  Forall (fun n => src_playing n = false) (nodes (resetApp Demo.playing)).
Proof.
  assert (SP : singlePlayback Demo.playing).
  { intros [|[|id]] n; vm_compute; intros E P; congruence. }
  split; [repeat split; vm_compute; reflexivity|].
  split; [exact SP|].
  destruct (resetApp_resets_all_but_error Demo.playing)
    as (A & _ & _ & _ & B & _ & C & _).
  split; [exact A | split; [exact B | exact (C SP)]].
Defined.

(** C2 as stated fails, twice over.  After a failed run the reset leaves
    the error in place.  And after the events of [Fixtures.overlapped]
    (play, pause, play, the first node reporting late that it has ended,
    play) two nodes sound while the ref holds the later one: the reset
    stops that one and the other keeps sounding. *)
Lemma resetApp_keeps_error_and_a_stale_source :
  (reachable Demo.failed /\
   status Demo.failed = ERROR /\
   status (resetApp Demo.failed) = IDLE /\
   error (resetApp Demo.failed)
   = Some {| message := lit "API_KEY is missing in environment variables" |} /\
   error (resetApp Demo.failed) <> None) /\
  (reachable Fixtures.overlapped /\
   status Fixtures.overlapped = COMPLETE /\
   sourceNodeRef Fixtures.overlapped = Some 2 /\
   List.map src_playing (nodes Fixtures.overlapped) = [false; true; true] /\
   status (resetApp Fixtures.overlapped) = IDLE /\
   List.map src_playing (nodes (resetApp Fixtures.overlapped))
   = [false; true; false]).
Proof.
  split.
  - split.
    { apply reach_event
        with (st := initial) (e := FileSelected Demo.noKey (Some Demo.dataUrl));
        [apply reach_initial | reflexivity |].
      unfold after, passes, Demo.failed.
      apply in_or_app. right. left. reflexivity. }
    repeat split; try (vm_compute; reflexivity).
    vm_compute. discriminate.
  - split; [|repeat split; vm_compute; reflexivity].
    assert (R0 : reachable Demo.completed).
    { apply reach_event
        with (st := initial) (e := FileSelected Demo.good (Some Demo.dataUrl));
        [apply reach_initial | reflexivity |].
      unfold after, passes, Demo.completed.
      apply in_or_app. right. left. reflexivity. }
    assert (R1 : reachable Fixtures.played).
    { apply reach_event with (st := Demo.completed) (e := ToggleAudio);
        [exact R0 | vm_compute; reflexivity | left; reflexivity]. }
    assert (R2 : reachable Fixtures.paused).
    { apply reach_event with (st := Fixtures.played) (e := ToggleAudio);
        [exact R1 | vm_compute; reflexivity | left; reflexivity]. }
    assert (R3 : reachable Fixtures.playedAgain).
    { apply reach_event with (st := Fixtures.paused) (e := ToggleAudio);
        [exact R2 | vm_compute; reflexivity | left; reflexivity]. }
    assert (R4 : reachable Fixtures.lateEnded).
    { apply reach_event with (st := Fixtures.playedAgain) (e := SourceEnded 0);
        [exact R3 | vm_compute; reflexivity | left; reflexivity]. }
    apply reach_event with (st := Fixtures.lateEnded) (e := ToggleAudio);
      [exact R4 | vm_compute; reflexivity | left; reflexivity].
Qed.

(** C4.  The text sent to speech synthesis is the first 500 code units of
    the description followed by ["..."] when the description is longer
    than 500, and the description itself otherwise (800 gives 500 and the
    ellipsis, 400 is sent as it is); and the speech request of a run carries
    exactly that text for the description the run obtained. *)
Theorem ttsText_truncates_past_500 :
  (forall description : jsstring,
      (500 < List.length description ->
       ttsText description = firstn 500 description ++ lit "...") /\
      (List.length description <= 500 -> ttsText description = description) /\
      (List.length description = 800 ->
       ttsText description = firstn 500 description ++ lit "..." /\
       List.length (ttsText description) = 503) /\
      (List.length description = 400 -> ttsText description = description)) /\
  (forall (rt : Runtime) (img : option jsstring) (st : AppState) (t : jsstring),
      In (SpeechRequest t) (requests (run (startAnalysis rt img) st)) ->
      exists det,
        details (app (run (startAnalysis rt img) st)) = Some det /\
        t = ttsText (description det)).
Proof.
  split; [|apply startAnalysis_speech].
  intros description.
  assert (Long : 500 < List.length description ->
                 ttsText description = firstn 500 description ++ lit "...").
  { intros H. unfold ttsText, substring0.
    apply Nat.ltb_lt in H. rewrite H. reflexivity. }
  assert (Short : List.length description <= 500 ->
                  ttsText description = description).
  { intros H. unfold ttsText.
    destruct (Nat.ltb 500 (List.length description)) eqn:E; [|reflexivity].
    apply Nat.ltb_lt in E. lia. }
  repeat split; auto.
  - apply Long; lia.
  - rewrite Long by lia. rewrite length_app, length_firstn, H.
    reflexivity.
  - intros H. apply Short; lia.
Qed.

Lemma ttsText_witness :
  (List.length (repeat 97%N 800) = 800 /\
   ttsText (repeat 97%N 800) = repeat 97%N 500 ++ lit "...") /\
  (List.length (repeat 98%N 400) = 400 /\
   ttsText (repeat 98%N 400) = repeat 98%N 400) /\
  (In (SpeechRequest (lit "Built for the 1889 World's Fair."))
      (requests (run (startAnalysis Demo.good None) initial))).
Proof.
  pose proof (proj1 ttsText_truncates_past_500) as T.
  split; [|split].
  - split; [apply repeat_length|].
    destruct (T (repeat 97%N 800)) as (_ & _ & H & _).
    rewrite (proj1 (H (repeat_length _ _))). vm_compute. reflexivity.
  - split; [apply repeat_length|].
    destruct (T (repeat 98%N 400)) as (_ & _ & _ & H).
    apply H, repeat_length.
  - vm_compute. right; right; left. reflexivity.
Defined.

(** C10.  A description of exactly 500 code units is sent as it is: the
    test is strictly greater than 500. *)
Theorem ttsText_at_500_unchanged :
  forall description : jsstring,
    List.length description = 500 -> ttsText description = description.
Proof.
  intros description H. unfold ttsText. rewrite H. reflexivity.
Qed.

Lemma ttsText_at_500_witness :
  List.length (repeat 97%N 500) = 500 /\
  ttsText (repeat 97%N 500) = repeat 97%N 500.
Proof.
  split; [apply repeat_length|].
  apply ttsText_at_500_unchanged, repeat_length.
Defined.



(** C8.  Without a decoded audio buffer [toggleAudio] changes nothing: the
    state it returns is the state it was given, whole. *)
Theorem toggleAudio_without_buffer_is_noop :
  forall st : AppState, audioBuffer st = None -> toggleAudio st = st.
Proof.
  intros st H. unfold toggleAudio. rewrite H.
  destruct (audioContextRef st); reflexivity.
Qed.

Lemma toggleAudio_witness :
  audioBuffer Demo.failedLater = None /\
  audioContextRef Demo.failedLater <> None /\
  toggleAudio Demo.failedLater = Demo.failedLater.
Proof.
  assert (B : audioBuffer Demo.failedLater = None) by (vm_compute; reflexivity).
  split; [exact B|]. split; [vm_compute; discriminate|].
  exact (toggleAudio_without_buffer_is_noop Demo.failedLater B).
Defined.

(** [split] cuts at every comma, so with a second comma in the string the
    payload stops there. *)
Remark base64Data_stops_at_second_comma :
  base64Data (lit "a,b,c") = Some (lit "b") /\ base64Data (lit "abc") = None.
Proof. split; reflexivity. Qed.

(** C9.  For a data URL whose text after the first comma contains no
    further comma, as is the case of the base64 data URLs a file reader
    produces, the payload is the text after the first comma, and it is what
    the vision request of the run carries. *)
Theorem base64Data_is_text_after_first_comma :
  forall header payload : jsstring,
    ~ In 44%N header -> ~ In 44%N payload ->
    base64Data (header ++ 44%N :: payload) = Some payload /\
    (forall (rt : Runtime) (st : AppState),
        truthy (API_KEY rt) = true ->
        hd_error (requests (run (handleFileSelect rt
                                   (Some (header ++ 44%N :: payload))) st))
        = Some (VisionRequest (Some payload))).
Proof.
  intros header payload Hh Hp.
  assert (E : base64Data (header ++ 44%N :: payload) = Some payload).
  { unfold base64Data. rewrite split_at_first by exact Hh.
    rewrite split_no_sep by exact Hp. reflexivity. }
  split; [exact E|].
  intros rt st K. unfold handleFileSelect. rewrite run_onload, E.
  apply startAnalysis_first_request, K.
Qed.

Lemma base64Data_witness :
  ~ In 44%N (lit "data:image/jpeg;base64") /\
  ~ In 44%N (lit "/9j/4AAQ") /\
  lit "data:image/jpeg;base64" ++ 44%N :: lit "/9j/4AAQ" = Demo.dataUrl /\
  base64Data Demo.dataUrl = Some (lit "/9j/4AAQ") /\
  hd_error (requests (run (handleFileSelect Demo.good (Some Demo.dataUrl))
                          initial))
  = Some (VisionRequest (Some (lit "/9j/4AAQ"))).
Proof.
  assert (Hh : ~ In 44%N (lit "data:image/jpeg;base64")).
  { vm_compute. intros H.
    repeat (destruct H as [H | H]; [discriminate H|]). exact H. }
  assert (Hp : ~ In 44%N (lit "/9j/4AAQ")).
  { vm_compute. intros H.
    repeat (destruct H as [H | H]; [discriminate H|]). exact H. }
  destruct (@base64Data_is_text_after_first_comma
              (lit "data:image/jpeg;base64") (lit "/9j/4AAQ") Hh Hp) as [E R].
  split; [exact Hh|]. split; [exact Hp|]. split; [reflexivity|].
  split; [exact E|]. exact (R Demo.good initial eq_refl).
Defined.

(* ================================================================= *)
(** * Further properties of the code *)

(** ** The result overlay *)

Module OverlayFacts.
Import Overlay.

Lemma startsWithStars_inv (s : jsstring) :
  startsWithStars s = true -> exists r, s = stars ++ r.
Proof.
  destruct s as [|a [|b r]]; simpl; try discriminate.
  rewrite andb_true_iff, !N.eqb_eq. intros [-> ->]. exists r. reflexivity.
Qed.

(** What [closeAt] finds: [k] units free of line terminators, then two
    stars. *)
Lemma closeAt_spec (s : jsstring) (k : nat) :
  closeAt s = Some k ->
  exists r, s = firstn k s ++ stars ++ r /\
            List.length (firstn k s) = k /\
            Forall (fun c => isLineTerminator c = false) (firstn k s).
Proof.
  revert k; induction s as [|c s IH]; intros k; [discriminate|].
  unfold closeAt; fold closeAt.
  destruct (startsWithStars (c :: s)) eqn:E.
  - intros H; inversion H; subst. apply startsWithStars_inv in E.
    destruct E as [r E]. exists r. cbn [firstn List.length app]. auto.
  - destruct (isLineTerminator c) eqn:L; [discriminate|].
    destruct (closeAt s) as [k'|]; [|discriminate].
    intros H; inversion H; subst.
    destruct (IH k' eq_refl) as (r & E1 & E2 & E3).
    exists r. cbn [firstn List.length app].
    split; [rewrite <- app_comm_cons; f_equal; exact E1|].
    split; [f_equal; exact E2|].
    constructor; assumption.
Qed.

Lemma matchLength_spec (s : jsstring) (len : nat) :
  matchLength s = Some len ->
  exists body r,
    s = (stars ++ body ++ stars) ++ r /\
    len = List.length body + 4 /\
    firstn len s = stars ++ body ++ stars /\
    skipn len s = r /\
    Forall (fun c => isLineTerminator c = false) body.
Proof.
  destruct s as [|a [|b t]]; simpl; try discriminate.
  destruct (N.eqb a 42 && N.eqb b 42) eqn:E; [|discriminate].
  apply andb_true_iff in E. rewrite !N.eqb_eq in E. destruct E as [-> ->].
  destruct (closeAt t) as [k|] eqn:C; [|discriminate].
  intros H; inversion H; subst.
  destruct (closeAt_spec _ C) as (r & E1 & E2 & E3).
  exists (firstn k t), r.
  assert (W : 42%N :: 42%N :: t = (stars ++ firstn k t ++ stars) ++ r).
  { simpl. rewrite <- app_assoc. simpl in E1. simpl. rewrite <- E1.
    reflexivity. }
  assert (Len : List.length (stars ++ firstn k t ++ stars) = k + 4).
  { rewrite !length_app, E2. simpl. lia. }
  repeat split; try assumption.
  - rewrite E2. reflexivity.
  - rewrite W at 1. rewrite <- Len. rewrite firstn_app, Nat.sub_diag.
    rewrite firstn_all. cbn [firstn]. apply app_nil_r.
  - rewrite W at 1. rewrite <- Len. rewrite skipn_app, Nat.sub_diag.
    rewrite skipn_all. reflexivity.
Qed.

Lemma splitLoop_concat (fuel : nat) (pending s : jsstring) :
  List.concat (splitLoop fuel pending s) = pending ++ s.
Proof.
  revert pending s; induction fuel as [|fuel IH]; intros pending s; simpl.
  - apply app_nil_r.
  - destruct s as [|c r]; [simpl; rewrite !app_nil_r; reflexivity|].
    destruct (matchLength (c :: r)) as [len|].
    + simpl. rewrite IH. simpl. rewrite firstn_skipn. reflexivity.
    + rewrite IH, <- app_assoc. reflexivity.
Qed.

(** The split does not depend on the fuel once there is one unit of it
    for each code unit. *)
Lemma splitLoop_fuel (f1 f2 : nat) (pending s : jsstring) :
  List.length s <= f1 -> List.length s <= f2 ->
  splitLoop f1 pending s = splitLoop f2 pending s.
Proof.
  revert f2 pending s; induction f1 as [|f1 IH]; intros f2 pending s L1 L2.
  - destruct s; [|simpl in L1; lia].
    destruct f2; simpl; rewrite ?app_nil_r; reflexivity.
  - destruct s as [|c r].
    + destruct f2; simpl; rewrite ?app_nil_r; reflexivity.
    + destruct f2 as [|f2]; [simpl in L2; lia|]. simpl in L1, L2.
      cbn [splitLoop]. destruct (matchLength (c :: r)) as [len|] eqn:M.
      * f_equal. f_equal.
        destruct (matchLength_spec _ M) as (body & t & _ & Len & _ & _ & _).
        apply IH; rewrite length_skipn; cbn [List.length]; lia.
      * apply IH; lia.
Qed.

Lemma splitLoop_odd (fuel : nat) (pending s : jsstring) (i : nat)
    (p : jsstring) :
  nth_error (splitLoop fuel pending s) (2 * i + 1) = Some p -> captured p.
Proof.
  revert pending s i; induction fuel as [|fuel IH]; intros pending s i.
  - replace (2 * i + 1) with (S (2 * i)) by lia. cbn [splitLoop nth_error].
    destruct (2 * i); cbn [nth_error]; intros H; discriminate H.
  - replace (2 * i + 1) with (S (2 * i)) by lia.
    cbn [splitLoop]. destruct s as [|c r].
    + cbn [nth_error].
      destruct (2 * i); cbn [nth_error]; intros H; discriminate H.
    + destruct (matchLength (c :: r)) as [len|] eqn:M.
      * destruct (matchLength_spec _ M) as (body & t & _ & _ & F & _ & NL).
        destruct i as [|i].
        -- cbn [Nat.mul nth_error]. intros H; inversion H; subst.
           exists body. auto.
        -- replace (2 * S i) with (S (2 * i + 1)) by lia.
           cbn [nth_error]. apply IH.
      * replace (S (2 * i)) with (2 * i + 1) by lia. apply IH.
Qed.

Lemma splitLoop_length_odd (fuel : nat) (pending s : jsstring) :
  Nat.odd (List.length (splitLoop fuel pending s)) = true.
Proof.
  revert pending s; induction fuel as [|fuel IH]; intros pending s;
    [reflexivity|].
  cbn [splitLoop]. destruct s as [|c r]; [reflexivity|].
  destruct (matchLength (c :: r)); [|apply IH].
  cbn [List.length]. rewrite Nat.odd_succ, Nat.even_succ. apply IH.
Qed.

Lemma renderPart_captured (body : jsstring) :
  renderPart (stars ++ body ++ stars) = Bold body.
Proof.
  unfold renderPart.
  assert (S1 : startsWithStars (stars ++ body ++ stars) = true)
    by reflexivity.
  assert (S2 : endsWithStars (stars ++ body ++ stars) = true).
  { unfold endsWithStars. rewrite !rev_app_distr. reflexivity. }
  rewrite S1, S2. cbn [andb]. f_equal.
  unfold slice2. rewrite !length_app.
  change (List.length stars) with 2.
  change (skipn 2 (stars ++ body ++ stars)) with (body ++ stars).
  replace (2 + (List.length body + 2) - 4) with (List.length body) by lia.
  rewrite firstn_app, Nat.sub_diag, firstn_all. cbn [firstn].
  apply app_nil_r.
Qed.

Lemma hasMarker_false (s : jsstring) :
  hasMarker s = false ->
  startsWithStars s = false /\ matchLength s = None.
Proof.
  destruct s as [|a [|b t]]; simpl; auto.
  intros H. apply orb_false_iff in H. destruct H as [H _].
  rewrite H. auto.
Qed.

Lemma splitLoop_no_match (fuel : nat) (pending s : jsstring) :
  noMatch s = true -> splitLoop fuel pending s = [pending ++ s].
Proof.
  revert pending s; induction fuel as [|fuel IH]; intros pending s H;
    [reflexivity|].
  cbn [splitLoop]. destruct s as [|c r]; [rewrite app_nil_r; reflexivity|].
  cbn [noMatch] in H. destruct (matchLength (c :: r)); [discriminate|].
  rewrite IH by exact H. rewrite <- app_assoc. reflexivity.
Qed.

Lemma hasMarker_noMatch (s : jsstring) : hasMarker s = false -> noMatch s = true.
Proof.
  induction s as [|c r IH]; [reflexivity|]. intros H.
  pose proof (hasMarker_false _ H) as [_ M]. cbn [noMatch]. rewrite M.
  apply IH. cbn [hasMarker] in H. apply orb_false_iff in H. tauto.
Qed.

End OverlayFacts.

Import Overlay OverlayFacts.

(** X1.  The label of a source chip is never longer than 23 code units:
    a title of at most 20 is shown as it is, a longer one is cut to its
    first 20 followed by three full stops; either way the label starts
    like the title. *)
Theorem titleLabel_bounded :
  forall title : jsstring,
    List.length (titleLabel title) <= 23 /\
    (List.length title <= 20 -> titleLabel title = title) /\
    (20 < List.length title ->
     titleLabel title = firstn 20 title ++ lit "..." /\
     List.length (titleLabel title) = 23) /\
    firstn 20 (titleLabel title) = firstn 20 title.
Proof.
  intros title. unfold titleLabel, substring0.
  destruct (Nat.ltb 20 (List.length title)) eqn:E.
  - apply Nat.ltb_lt in E.
    assert (L : List.length (firstn 20 title) = 20)
      by (rewrite length_firstn; lia).
    assert (L3 : List.length (firstn 20 title ++ lit "...") = 23)
      by (rewrite length_app, L; reflexivity).
    repeat split; try lia; try assumption; try reflexivity.
    rewrite firstn_app, L, Nat.sub_diag, firstn_O, app_nil_r.
    apply firstn_all2. lia.
  - apply Nat.ltb_ge in E. repeat split; try lia; reflexivity.
Qed.

Lemma titleLabel_witness :
  20 < List.length (lit "Eiffel Tower - Wikipedia, the free encyclopedia") /\
  titleLabel (lit "Eiffel Tower - Wikipedia, the free encyclopedia")
  = lit "Eiffel Tower - Wikip..." /\
  List.length (lit "Official site") <= 20 /\
  titleLabel (lit "Official site") = lit "Official site".
Proof.
  assert (L : 20 < List.length
                     (lit "Eiffel Tower - Wikipedia, the free encyclopedia"))
    by (vm_compute; lia).
  assert (S : List.length (lit "Official site") <= 20) by (vm_compute; lia).
  split; [exact L|]. split.
  - rewrite (proj1 (proj1 (proj2 (proj2 (titleLabel_bounded _))) L)).
    reflexivity.
  - split; [exact S|].
    exact (proj1 (proj2 (titleLabel_bounded _)) S).
Defined.

(** X2.  Splitting a description on its bold markers loses nothing: the
    parts, put back together in order, are the description, and there is
    an odd number of them (text, match, text, ..., text).  The split is
    the same with any larger amount of fuel. *)
Theorem splitBold_loses_nothing :
  forall text : jsstring,
    List.concat (splitBold text) = text /\
    Nat.odd (List.length (splitBold text)) = true /\
    (forall fuel, List.length text <= fuel ->
                  splitLoop fuel [] text = splitBold text).
Proof.
  intros text. split; [|split].
  - unfold splitBold. apply splitLoop_concat.
  - apply splitLoop_length_odd.
  - intros fuel L. unfold splitBold. apply splitLoop_fuel; [exact L | lia].
Qed.

Lemma splitBold_witness :
  splitBold (lit "**a**b") = [[]; lit "**a**"; lit "b"] /\
  splitLoop 100 [] (lit "**a**b") = splitBold (lit "**a**b").
Proof.
  split; [reflexivity|].
  apply (proj2 (proj2 (splitBold_loses_nothing (lit "**a**b")))).
  vm_compute. lia.
Defined.

(** X3.  Every part at an odd position of the split is a match of the
    pattern: two stars, a body without line terminator, two stars; and it
    is rendered as a bold element holding exactly the body. *)
Theorem matched_spans_rendered_bold :
  forall (text : jsstring) (i : nat) (part : jsstring),
    nth_error (splitBold text) (2 * i + 1) = Some part ->
    exists body,
      part = stars ++ body ++ stars /\
      Forall (fun c => isLineTerminator c = false) body /\
      nth_error (renderDescription text) (2 * i + 1) = Some (Bold body).
Proof.
  intros text i part H.
  destruct (splitLoop_odd _ _ _ _ H) as (body & E & NL).
  exists body. repeat split; try assumption.
  unfold renderDescription. rewrite nth_error_map, H. simpl.
  rewrite E, renderPart_captured. reflexivity.
Qed.

Lemma matched_spans_witness :
  nth_error (splitBold (lit "Built in **1889** by Eiffel")) (2 * 0 + 1)
  = Some (lit "**1889**") /\
  exists body,
    lit "**1889**" = stars ++ body ++ stars /\
    Forall (fun c => isLineTerminator c = false) body /\
    nth_error (renderDescription (lit "Built in **1889** by Eiffel"))
      (2 * 0 + 1) = Some (Bold body).
Proof.
  assert (H : nth_error (splitBold (lit "Built in **1889** by Eiffel"))
                (2 * 0 + 1) = Some (lit "**1889**")) by reflexivity.
  split; [exact H | exact (matched_spans_rendered_bold _ _ H)].
Defined.

(** X4.  A description without two stars in a row is rendered as it is,
    as a single piece of plain text. *)
Theorem text_without_markers_rendered_as_is :
  forall text : jsstring,
    hasMarker text = false -> renderDescription text = [Plain text].
Proof.
  intros text H. unfold renderDescription, splitBold.
  rewrite splitLoop_no_match by (apply hasMarker_noMatch, H).
  simpl. unfold renderPart.
  rewrite (proj1 (hasMarker_false _ H)). reflexivity.
Qed.

Lemma text_without_markers_witness :
  hasMarker (lit "5 * 3 = 15 *approximately*") = false /\
  renderDescription (lit "5 * 3 = 15 *approximately*")
  = [Plain (lit "5 * 3 = 15 *approximately*")].
Proof.
  assert (H : hasMarker (lit "5 * 3 = 15 *approximately*") = false)
    by reflexivity.
  split; [exact H | exact (text_without_markers_rendered_as_is _ H)].
Defined.

(** X5.  The bold test is applied to every part, matched or not: a
    description in which the pattern matches nowhere (its markers are
    separated by a line break, or it is just two or three stars) but which
    starts and ends with two stars is rendered as one bold element, without
    its first and last two code units. *)
Theorem unmatched_markers_rendered_bold :
  forall text : jsstring,
    noMatch text = true ->
    startsWithStars text = true -> endsWithStars text = true ->
    renderDescription text = [Bold (slice2 text)].
Proof.
  intros text N S E. unfold renderDescription, splitBold.
  rewrite splitLoop_no_match by exact N.
  simpl. unfold renderPart. rewrite S, E. reflexivity.
Qed.

Lemma unmatched_markers_witness :
  let text := lit "**Tower" ++ [10%N] ++ lit "of iron**" in
  noMatch text = true /\ startsWithStars text = true /\
  endsWithStars text = true /\
  renderDescription text = [Bold (lit "Tower" ++ [10%N] ++ lit "of iron")] /\
  renderDescription (lit "***") = [Bold []].
Proof.
  cbv zeta.
  assert (N : noMatch (lit "**Tower" ++ [10%N] ++ lit "of iron**") = true)
    by reflexivity.
  split; [exact N|]. split; [reflexivity|]. split; [reflexivity|].
  split.
  - rewrite (unmatched_markers_rendered_bold _ N eq_refl eq_refl).
    reflexivity.
  - exact (unmatched_markers_rendered_bold (lit "***") eq_refl eq_refl eq_refl).
Defined.

(** ** More on the services *)

Module ServiceMore.
Import MapFacts ServiceFacts.

Lemma Map_set_fresh {V} (k : jsstring) (v : V) (m : list (jsstring * V)) :
  mem k (List.map fst m) = false -> Map_set k v m = m ++ [(k, v)].
Proof.
  induction m as [|[k0 v0] m IH]; simpl; [reflexivity|].
  intros H. apply orb_false_iff in H. destruct H as [H1 H2].
  rewrite H1, IH by exact H2. reflexivity.
Qed.

Lemma fold_fresh {V} (es m : list (jsstring * V)) :
  NoDup (List.map fst m ++ List.map fst es) ->
  fold_left Map_step es m = m ++ es.
Proof.
  revert m; induction es as [|[k v] es IH]; intros m ND; simpl.
  - symmetry; apply app_nil_r.
  - unfold Map_step at 2. simpl. rewrite Map_set_fresh.
    + rewrite IH; [rewrite <- app_assoc; reflexivity|].
      rewrite map_app, <- app_assoc. exact ND.
    + destruct (mem k (List.map fst m)) eqn:E; [|reflexivity].
      apply mem_In in E. apply NoDup_remove_2 in ND.
      exfalso. apply ND, in_or_app. auto.
Qed.

Lemma uniqueSources_NoDup_id (l : list Source) :
  NoDup (List.map uri l) -> uniqueSources l = l.
Proof.
  intros ND. unfold uniqueSources, Map_values, Map_new. fold (keyed l).
  rewrite fold_fresh by (simpl; rewrite keyed_keys; exact ND).
  simpl. unfold keyed. rewrite map_map. simpl. apply map_id.
Qed.

Lemma firstSeen_length (l : list jsstring) :
  List.length (firstSeen l) <= List.length l.
Proof.
  induction l as [|x l IH]; simpl; [lia|].
  pose proof (filter_length_le (fun y => negb (Js.eqb y x)) (firstSeen l)).
  lia.
Qed.

Lemma toSource_title (c : GroundingChunk) : title (toSource c) <> [].
Proof.
  unfold toSource; simpl. apply or_else_nonempty.
  intros H; vm_compute in H; discriminate H.
Qed.

End ServiceMore.

Import ServiceMore.

(** X6.  Removing duplicate sources a second time changes nothing, a list
    whose uris are already distinct is returned as it is, and the result is
    never longer than the input. *)
Theorem uniqueSources_idempotent :
  forall srcs : list Source,
    uniqueSources (uniqueSources srcs) = uniqueSources srcs /\
    (NoDup (List.map uri srcs) -> uniqueSources srcs = srcs) /\
    List.length (uniqueSources srcs) <= List.length srcs.
Proof.
  intros srcs. split; [|split].
  - apply uniqueSources_NoDup_id, uniqueSources_NoDup.
  - apply uniqueSources_NoDup_id.
  - rewrite <- (length_map uri (uniqueSources srcs)), uniqueSources_uris.
    rewrite <- (length_map uri srcs). apply firstSeen_length.
Qed.

Lemma uniqueSources_idempotent_witness :
  let srcs := [ {| title := lit "Wikipedia"; uri := lit "a" |};
                {| title := lit "Guide"; uri := lit "b" |} ] in
  NoDup (List.map uri srcs) /\ uniqueSources srcs = srcs.
Proof.
  cbv zeta.
  assert (ND : NoDup (List.map uri
                        [ {| title := lit "Wikipedia"; uri := lit "a" |};
                          {| title := lit "Guide"; uri := lit "b" |} ])).
  { simpl. constructor.
    - intros [H | []]. vm_compute in H. discriminate H.
    - constructor; [intros [] | constructor]. }
  split; [exact ND|].
  exact (proj1 (proj2 (uniqueSources_idempotent _)) ND).
Defined.

(** X7.  Without a credential ([API_KEY] missing or empty) each of the
    three service functions throws ["API_KEY is missing in environment
    variables"] before anything else happens: no request is sent and
    nothing is changed. *)
Theorem services_throw_without_api_key :
  forall rt : Runtime,
    truthy (API_KEY rt) = false ->
    forall (w : World) (img : option jsstring) (n c : option Json)
           (t : jsstring),
      let e := Error (lit "API_KEY is missing in environment variables") in
      identifyLandmark rt img w = (Throw e, w) /\
      getLandmarkDetails rt n c w = (Throw e, w) /\
      generateNarration rt t w = (Throw e, w).
Proof.
  intros rt K w img n c t e.
  unfold identifyLandmark, getLandmarkDetails, generateNarration, getClient,
    bind. rewrite K. repeat split.
Qed.

Lemma services_throw_without_api_key_witness :
  truthy (API_KEY Demo.noKey) = false /\
  identifyLandmark Demo.noKey None Demo.world0
  = (Throw (Error (lit "API_KEY is missing in environment variables")),
     Demo.world0) /\
  requests (snd (generateNarration Demo.noKey (lit "Hello") Demo.world0)) = [].
Proof.
  pose proof (services_throw_without_api_key Demo.noKey eq_refl
                Demo.world0 None None None (lit "Hello")) as (A & _ & C).
  split; [reflexivity|]. split; [exact A|]. rewrite C. reflexivity.
Defined.

(** X8.  With a credential, a failure of the remote call is passed on
    unchanged by each service function: the very exception the call threw
    is the one thrown, after exactly that one request.  For
    [getLandmarkDetails] this is so when the name and the context can be
    written into the prompt, which happens before the call. *)
Theorem services_pass_on_call_failure :
  forall (rt : Runtime) (e : Exn),
    truthy (API_KEY rt) = true ->
    forall w : World,
      (forall img, generateContent rt (VisionRequest img) = Throw e ->
                   fst (identifyLandmark rt img w) = Throw e /\
                   requests (snd (identifyLandmark rt img w))
                   = requests w ++ [VisionRequest img]) /\
      (forall n c, canInterpolate n = true -> canInterpolate c = true ->
                   generateContent rt (DetailsRequest n c) = Throw e ->
                   fst (getLandmarkDetails rt n c w) = Throw e /\
                   requests (snd (getLandmarkDetails rt n c w))
                   = requests w ++ [DetailsRequest n c]) /\
      (forall t, generateContent rt (SpeechRequest t) = Throw e ->
                 fst (generateNarration rt t w) = Throw e /\
                 requests (snd (generateNarration rt t w))
                 = requests w ++ [SpeechRequest t]).
Proof.
  intros rt e K w.
  unfold identifyLandmark, getLandmarkDetails, generateNarration, getClient,
    interpolate, bind, await, send, ret. rewrite K.
  split; [|split].
  - intros img H. simpl. rewrite H. split; reflexivity.
  - intros n c Hn Hc H. rewrite Hn, Hc. simpl. rewrite H. split; reflexivity.
  - intros t H. simpl. rewrite H. split; reflexivity.
Qed.

Lemma services_pass_on_call_failure_witness :
  truthy (API_KEY Fixtures.offline) = true /\
  generateContent Fixtures.offline (VisionRequest None)
  = Throw (mkExn EHost (Some (lit "Failed to fetch"))) /\
  fst (identifyLandmark Fixtures.offline None Demo.world0)
  = Throw (mkExn EHost (Some (lit "Failed to fetch"))) /\
  canInterpolate (Some (JString (lit "Eiffel Tower"))) = true /\
  fst (getLandmarkDetails Fixtures.offline
         (Some (JString (lit "Eiffel Tower"))) None Demo.world0)
  = Throw (mkExn EHost (Some (lit "Failed to fetch"))).
Proof.
  pose proof (@services_pass_on_call_failure Fixtures.offline
                (mkExn EHost (Some (lit "Failed to fetch")))
                eq_refl Demo.world0) as (V & D & _).
  split; [reflexivity|]. split; [reflexivity|].
  split; [exact (proj1 (V None eq_refl))|]. split; [reflexivity|].
  exact (proj1 (D (Some (JString (lit "Eiffel Tower"))) None
                  eq_refl eq_refl eq_refl)).
Defined.

(** X9.  The service functions never touch the component state, and each
    sends at most one request, of its own kind. *)
Theorem services_leave_state_alone :
  forall (rt : Runtime) (w : World) (img : option jsstring)
         (n c : option Json) (t : jsstring),
    (app (snd (identifyLandmark rt img w)) = app w /\
     (requests (snd (identifyLandmark rt img w)) = requests w \/
      requests (snd (identifyLandmark rt img w))
      = requests w ++ [VisionRequest img])) /\
    (app (snd (getLandmarkDetails rt n c w)) = app w /\
     (requests (snd (getLandmarkDetails rt n c w)) = requests w \/
      requests (snd (getLandmarkDetails rt n c w))
      = requests w ++ [DetailsRequest n c])) /\
    (app (snd (generateNarration rt t w)) = app w /\
     (requests (snd (generateNarration rt t w)) = requests w \/
      requests (snd (generateNarration rt t w))
      = requests w ++ [SpeechRequest t])).
Proof.
  intros rt w img n c t.
  unfold identifyLandmark, getLandmarkDetails, generateNarration, getClient,
    interpolate, bind, await, send, ret, throw.
  destruct (truthy (API_KEY rt)); simpl.
  2:{ repeat split; auto. }
  split; [|split].
  - destruct (generateContent rt (VisionRequest img)) as [r|e]; simpl; auto.
    destruct (text r) as [[|x y]|]; simpl; auto.
    destruct (JSON.parse (x :: y)); simpl; auto.
  - destruct (canInterpolate n); simpl; auto.
    destruct (canInterpolate c); simpl; auto.
    destruct (generateContent rt (DetailsRequest n c)); simpl; auto.
  - destruct (generateContent rt (SpeechRequest t)) as [r|e]; simpl; auto.
    destruct (audioData_of r) as [[|x y]|]; simpl; auto.
Qed.

(** X10.  What [getLandmarkDetails] returns is never blank: whenever it
    returns, which it does when a credential is there, the two arguments
    can be written into the prompt and the remote call answers, the
    description is not empty, and no source has an empty title or an empty
    uri. *)
Theorem getLandmarkDetails_never_blank :
  forall (rt : Runtime) (n c : option Json) (w : World)
         (response : GenerateContentResponse),
    truthy (API_KEY rt) = true ->
    canInterpolate n = true -> canInterpolate c = true ->
    generateContent rt (DetailsRequest n c) = Ok response ->
    exists d,
      fst (getLandmarkDetails rt n c w) = Ok d /\
      description d <> [] /\
      (forall s, In s (sources d) -> title s <> [] /\ uri s <> []).
Proof.
  intros rt n c w response K Hn Hc G. eexists. split.
  { apply getLandmarkDetails_returns; eassumption. }
  simpl. split.
  - apply or_else_nonempty. intros H; vm_compute in H; discriminate H.
  - intros s H. apply uniqueSources_In in H.
    split; [|apply extractSources_In in H; tauto].
    unfold extractSources in H. apply filter_In in H. destruct H as [H _].
    apply in_map_iff in H. destruct H as (ch & <- & _).
    apply toSource_title.
Qed.

Lemma getLandmarkDetails_never_blank_witness :
  let rt := Demo.runtime (Some (lit "key")) None
              [ {| web := Some {| web_uri := Some (lit "d");
                                  web_title := Some [] |} |} ] [] in
  truthy (API_KEY rt) = true /\
  canInterpolate None = true /\
  exists d,
    fst (getLandmarkDetails rt None None Demo.world0) = Ok d /\
    description d <> [] /\
    (forall s, In s (sources d) -> title s <> [] /\ uri s <> []) /\
    List.map title (sources d) = [lit "Source"].
Proof.
  cbv zeta. split; [reflexivity|]. split; [reflexivity|].
  destruct (getLandmarkDetails_never_blank
              (Demo.runtime (Some (lit "key")) None
                 [ {| web := Some {| web_uri := Some (lit "d");
                                     web_title := Some [] |} |} ] [])
              None None Demo.world0 eq_refl eq_refl eq_refl eq_refl)
    as (d & E & D & S).
  exists d. split; [exact E|]. split; [exact D|]. split; [exact S|].
  vm_compute in E. inversion E. reflexivity.
Defined.

(** ** More on one run of the pipeline *)

Module RunFacts.
Import ServiceFacts AppFacts.

#[local] Arguments JSON.parse : simpl never.
#[local] Arguments JSON.lookup : simpl never.
#[local] Arguments ttsText : simpl never.
#[local] Arguments uniqueSources : simpl never.
#[local] Arguments extractSources : simpl never.
#[local] Arguments lit : simpl never.
#[local] Arguments or_else : simpl never.
#[local] Arguments toStringThrows : simpl never.

Lemma run_no_key (rt : Runtime) (img : option jsstring) (st : AppState) :
  truthy (API_KEY rt) = false ->
  status (app (run (startAnalysis rt img) st)) = ERROR /\
  error (app (run (startAnalysis rt img) st))
  = Some {| message := lit "API_KEY is missing in environment variables" |} /\
  requests (run (startAnalysis rt img) st) = [] /\
  landmark (app (run (startAnalysis rt img) st)) = None /\
  details (app (run (startAnalysis rt img) st)) = None /\
  audioBuffer (app (run (startAnalysis rt img) st)) = None.
Proof.
  intros K. revert K. symbolic_run; intros K; try discriminate K;
    repeat split.
Qed.

Lemma run_requests_order (rt : Runtime) (img : option jsstring)
    (st : AppState) :
  pipelineOrder img (requests (run (startAnalysis rt img) st)).
Proof.
  symbolic_run; unfold pipelineOrder;
    first [ left; reflexivity
          | right; left; reflexivity
          | right; right; left; eexists; eexists; reflexivity
          | right; right; right; eexists; eexists; eexists; reflexivity ].
Qed.

Lemma run_frames_forward (rt : Runtime) (img : option jsstring)
    (st : AppState) :
  nondecreasing
    (List.map (fun s => statusRank (status s))
       (passes (startAnalysis rt img) st)) = true /\
  forallb (fun s => inProgress (status s))
    (frames (run (startAnalysis rt img) st)) = true /\
  Forall (fun s => error s = None) (frames (run (startAnalysis rt img) st)) /\
  hd_error (frames (run (startAnalysis rt img) st))
  = Some (setFileInputRef
            (setStatus
               (setAudioBuffer
                  (setDetails (setLandmark (setError st None) None) None)
                  None)
               ANALYZING_IMAGE)
            None).
Proof.
  symbolic_run.
  all: split; [reflexivity|]; split; [reflexivity|]; split; [|reflexivity].
  all: repeat (apply Forall_cons || apply Forall_nil); reflexivity.
Qed.

(** What a run leaves alone, and what it keeps true of the audio
    context. *)
Lemma run_frame (rt : Runtime) (img : option jsstring) (st : AppState) :
  Forall (fun s =>
            image s = image st /\ isPlaying s = isPlaying st /\
            sourceNodeRef s = sourceNodeRef st /\ nodes s = nodes st /\
            fileInputRef s = None /\
            (audioBuffer s <> None -> audioContextRef s <> None) /\
            (forall ctx, audioContextRef st = Some ctx ->
                         audioContextRef s = Some ctx))
         (passes (startAnalysis rt img) st).
Proof.
  symbolic_run.
  all: repeat (apply Forall_cons || apply Forall_nil).
  all: cbn; repeat split; intros; congruence.
Qed.

Lemma run_complete (rt : Runtime) (img : option jsstring) (st : AppState) :
  status (app (run (startAnalysis rt img) st)) = COMPLETE ->
  exists v n c det r1 t r2 r3 d bytes ctx buf,
    landmark (app (run (startAnalysis rt img) st)) = Some v /\
    details (app (run (startAnalysis rt img) st)) = Some det /\
    requests (run (startAnalysis rt img) st)
    = [VisionRequest img; DetailsRequest n c;
       SpeechRequest (ttsText (description det))] /\
    (generateContent rt (VisionRequest img) = Ok r1 /\
     text r1 = Some t /\ JSON.parse t = Some v) /\
    (generateContent rt (DetailsRequest n c) = Ok r2 /\
     det = {| description :=
                or_else (text r2) (lit "Could not retrieve details.");
              sources :=
                uniqueSources (extractSources (groundingChunks_of r2)) |}) /\
    (generateContent rt (SpeechRequest (ttsText (description det))) = Ok r3 /\
     audioData_of r3 = Some d) /\
    audioContextRef (app (run (startAnalysis rt img) st)) = Some ctx /\
    decodeBase64 rt d = Ok bytes /\
    decodeAudioData rt bytes ctx 24000 1 = Ok buf /\
    audioBuffer (app (run (startAnalysis rt img) st)) = Some buf.
Proof.
  symbolic_run.
  all: intros C; try discriminate C.
  all: do 12 eexists.
  all: cbn;
    repeat match goal with
           | H : audioContextRef _ = _ |- _ => rewrite H
           end.
  all: repeat match goal with |- _ /\ _ => split end;
    cbn; first [reflexivity | eassumption].
Qed.

Lemma run_partial (rt : Runtime) (img : option jsstring) (st : AppState) :
  (forall n c,
      In (DetailsRequest n c) (requests (run (startAnalysis rt img) st)) ->
      landmark (app (run (startAnalysis rt img) st)) <> None) /\
  (forall t,
      In (SpeechRequest t) (requests (run (startAnalysis rt img) st)) ->
      landmark (app (run (startAnalysis rt img) st)) <> None /\
      details (app (run (startAnalysis rt img) st)) <> None).
Proof.
  symbolic_run.
  all: split; [intros ? ? H | intros ? H]; cbn in H;
    repeat match goal with
           | H : _ \/ _ |- _ => destruct H as [H | H]
           | H : False |- _ => contradiction
           | H : VisionRequest _ = _ |- _ => discriminate H
           | H : DetailsRequest _ _ = _ |- _ => try discriminate H; clear H
           | H : SpeechRequest _ = _ |- _ => try discriminate H; clear H
           end;
    repeat split; discriminate.
Qed.

Lemma run_vision_failure (rt : Runtime) (img : option jsstring)
    (st : AppState) (e : Exn) :
  truthy (API_KEY rt) = true ->
  generateContent rt (VisionRequest img) = Throw e ->
  status (app (run (startAnalysis rt img) st)) = ERROR /\
  error (app (run (startAnalysis rt img) st))
  = Some {| message :=
              or_else (exn_message e)
                (lit "Something went wrong during analysis.") |} /\
  requests (run (startAnalysis rt img) st) = [VisionRequest img] /\
  landmark (app (run (startAnalysis rt img) st)) = None.
Proof.
  intros K G.
  unfold run, startAnalysis, try_catch, identifyLandmark, getClient,
    await, send, update, bind, ret, throw.
  rewrite K. cbn. rewrite G. cbn. repeat split.
Qed.

Lemma run_conversion_failure (rt : Runtime) (img : option jsstring)
    (st : AppState) (response : GenerateContentResponse) (t : jsstring)
    (members : list (jsstring * Json)) :
  truthy (API_KEY rt) = true ->
  generateContent rt (VisionRequest img) = Ok response ->
  text response = Some t -> t <> [] ->
  JSON.parse t = Some (JObject members) ->
  canInterpolate (JSON.lookup (lit "name") members) = false ->
  status (app (run (startAnalysis rt img) st)) = ERROR /\
  error (app (run (startAnalysis rt img) st))
  = Some {| message :=
              or_else (Some (conversionErrorMessage rt))
                (lit "Something went wrong during analysis.") |} /\
  requests (run (startAnalysis rt img) st) = [VisionRequest img] /\
  landmark (app (run (startAnalysis rt img) st)) = Some (JObject members) /\
  details (app (run (startAnalysis rt img) st)) = None.
Proof.
  intros K G T Hne P Hn.
  destruct t as [|x y]; [congruence|].
  unfold run, startAnalysis, try_catch, awaitRendered, identifyLandmark,
    getLandmarkDetails, getClient, getProp, interpolate, await, send,
    update, bind, ret, throw.
  rewrite K. cbn. rewrite G. cbn. rewrite T. cbn. rewrite P. cbn.
  rewrite Hn. cbn. repeat split.
Qed.

End RunFacts.

Import RunFacts.

(** X11.  Without a credential a run fails before any request is sent:
    from any state it ends in [ERROR] with the message of [getClient], the
    request log is empty, and no result is stored. *)
Theorem run_without_credential_fails_before_any_request :
  forall (rt : Runtime) (img : option jsstring) (st : AppState),
    truthy (API_KEY rt) = false ->
    status (app (run (startAnalysis rt img) st)) = ERROR /\
    error (app (run (startAnalysis rt img) st))
    = Some {| message := lit "API_KEY is missing in environment variables" |} /\
    requests (run (startAnalysis rt img) st) = [] /\
    landmark (app (run (startAnalysis rt img) st)) = None /\
    details (app (run (startAnalysis rt img) st)) = None /\
    audioBuffer (app (run (startAnalysis rt img) st)) = None.
Proof. exact run_no_key. Qed.

Lemma run_without_credential_witness :
  truthy (API_KEY Demo.noKey) = false /\
  status (app (run (startAnalysis Demo.noKey None) Demo.completed)) = ERROR /\
  requests (run (startAnalysis Demo.noKey None) Demo.completed) = [] /\
  landmark (app (run (startAnalysis Demo.noKey None) Demo.completed)) = None.
Proof.
  destruct (@run_without_credential_fails_before_any_request
              Demo.noKey None Demo.completed eq_refl)
    as (A & _ & B & C & _).
  split; [reflexivity|]. split; [exact A|]. split; [exact B | exact C].
Defined.

(** X12.  The requests of a run follow the pipeline: whatever the remote
    service answers, the log is empty, or the vision request alone, or the
    vision request then one details request, or those two then one speech
    request; never more, never in another order. *)
Theorem run_sends_requests_in_pipeline_order :
  forall (rt : Runtime) (img : option jsstring) (st : AppState),
    pipelineOrder img (requests (run (startAnalysis rt img) st)).
Proof. exact run_requests_order. Qed.

(** X13.  While a run is under way the status only moves forward: the
    states on screen are all in one of the three loading statuses, in
    pipeline order up to the final status, none of them shows an error, and
    the first one has the previous error, result, details and buffer
    cleared (and the file input, which is not drawn any more, gone from its
    ref). *)
Theorem run_statuses_move_forward :
  forall (rt : Runtime) (img : option jsstring) (st : AppState),
    nondecreasing
      (List.map (fun s => statusRank (status s))
         (passes (startAnalysis rt img) st)) = true /\
    forallb (fun s => inProgress (status s))
      (frames (run (startAnalysis rt img) st)) = true /\
    Forall (fun s => error s = None)
      (frames (run (startAnalysis rt img) st)) /\
    hd_error (frames (run (startAnalysis rt img) st))
    = Some (setFileInputRef
              (setStatus
                 (setAudioBuffer
                    (setDetails (setLandmark (setError st None) None) None)
                    None)
                 ANALYZING_IMAGE)
              None).
Proof. exact run_frames_forward. Qed.

(** X14.  A run never touches the image, the playing flag, the source
    node reference or the audio nodes: in every state it passes through
    they are what they were, so a node that was sounding when the run
    started still is.  The file input is not drawn while a run is under
    way or once it has ended, and its ref is empty in all these states. *)
Theorem run_leaves_image_and_playback_alone :
  forall (rt : Runtime) (img : option jsstring) (st s : AppState),
    In s (passes (startAnalysis rt img) st) ->
    image s = image st /\ isPlaying s = isPlaying st /\
    sourceNodeRef s = sourceNodeRef st /\ nodes s = nodes st /\
    fileInputRef s = None.
Proof.
  intros rt img st s H.
  pose proof (run_frame rt img st) as F. rewrite Forall_forall in F.
  destruct (F s H) as (A & B & C & D & E & _). auto.
Qed.

Lemma run_leaves_playback_witness :
  In (app (run (startAnalysis Demo.good None) Demo.playing))
     (passes (startAnalysis Demo.good None) Demo.playing) /\
  isPlaying (app (run (startAnalysis Demo.good None) Demo.playing)) = true /\
  List.map src_playing
    (nodes (app (run (startAnalysis Demo.good None) Demo.playing))) = [true] /\
  fileInputRef initial = Some [] /\
  fileInputRef (app (run (startAnalysis Demo.good None) initial)) = None.
Proof.
  assert (H : In (app (run (startAnalysis Demo.good None) Demo.playing))
                 (passes (startAnalysis Demo.good None) Demo.playing)).
  { unfold passes. apply in_or_app. right. left. reflexivity. }
  destruct (run_leaves_image_and_playback_alone _ _ _ _ H)
    as (_ & B & _ & D & _).
  split; [exact H|]. rewrite B, D.
  split; [vm_compute; reflexivity|]. split; [vm_compute; reflexivity|].
  split; [reflexivity|].
  apply (run_leaves_image_and_playback_alone Demo.good None initial).
  unfold passes. apply in_or_app. right. left. reflexivity.
Defined.

(** X15.  An audio context that exists is reused: a run that starts with
    a context in the ref never replaces it. *)
Theorem run_reuses_audio_context :
  forall (rt : Runtime) (img : option jsstring) (st s : AppState)
         (ctx : AudioContext),
    audioContextRef st = Some ctx ->
    In s (passes (startAnalysis rt img) st) ->
    audioContextRef s = Some ctx.
Proof.
  intros rt img st s ctx C H.
  pose proof (run_frame rt img st) as F. rewrite Forall_forall in F.
  destruct (F s H) as (_ & _ & _ & _ & _ & _ & R). auto.
Qed.

Lemma run_reuses_audio_context_witness :
  audioContextRef (resetApp Demo.completed)
  = Some {| ctx_sampleRate := 24000 |} /\
  audioContextRef
    (app (run (startAnalysis Demo.good None) (resetApp Demo.completed)))
  = Some {| ctx_sampleRate := 24000 |}.
Proof.
  assert (C : audioContextRef (resetApp Demo.completed)
              = Some {| ctx_sampleRate := 24000 |}) by (vm_compute; reflexivity).
  split; [exact C|].
  apply (@run_reuses_audio_context Demo.good None (resetApp Demo.completed)
           _ _ C).
  unfold passes. apply in_or_app. right. left. reflexivity.
Defined.

(** X16.  A run that ends in [COMPLETE] made all three calls, in order,
    and stored what they returned: the analysis result is the parsed text
    of the vision answer, the details are built from the enrichment answer,
    the speech request carries [ttsText] of their description, and the
    buffer is the one decoded from the audio data of the speech answer, with
    the context in the ref, at 24000 Hz, one channel. *)
Theorem complete_run_made_all_three_calls :
  forall (rt : Runtime) (img : option jsstring) (st : AppState),
    status (app (run (startAnalysis rt img) st)) = COMPLETE ->
    exists v n c det r1 t r2 r3 d bytes ctx buf,
      landmark (app (run (startAnalysis rt img) st)) = Some v /\
      details (app (run (startAnalysis rt img) st)) = Some det /\
      requests (run (startAnalysis rt img) st)
      = [VisionRequest img; DetailsRequest n c;
         SpeechRequest (ttsText (description det))] /\
      (generateContent rt (VisionRequest img) = Ok r1 /\
       text r1 = Some t /\ JSON.parse t = Some v) /\
      (generateContent rt (DetailsRequest n c) = Ok r2 /\
       det = {| description :=
                  or_else (text r2) (lit "Could not retrieve details.");
                sources :=
                  uniqueSources (extractSources (groundingChunks_of r2)) |}) /\
      (generateContent rt (SpeechRequest (ttsText (description det))) = Ok r3 /\
       audioData_of r3 = Some d) /\
      audioContextRef (app (run (startAnalysis rt img) st)) = Some ctx /\
      decodeBase64 rt d = Ok bytes /\
      decodeAudioData rt bytes ctx 24000 1 = Ok buf /\
      audioBuffer (app (run (startAnalysis rt img) st)) = Some buf.
Proof. exact run_complete. Qed.

Lemma complete_run_witness :
  status (app (run (startAnalysis Fixtures.echo None) initial)) = COMPLETE /\
  exists d bytes buf,
    audioData_of
      {| text := None;
         candidates :=
           Some [ {| content :=
                       Some {| parts := Some [Demo.audioPart "AAAB"] |};
                     groundingMetadata := None |} ] |} = Some d /\
    d = lit "AAAB" /\
    decodeBase64 Fixtures.echo d = Ok bytes /\
    decodeAudioData Fixtures.echo bytes {| ctx_sampleRate := 24000 |} 24000 1
    = Ok buf /\
    audioBuffer (app (run (startAnalysis Fixtures.echo None) initial))
    = Some buf /\
    pcm buf = lit "AAAB".
Proof.
  assert (C : status (app (run (startAnalysis Fixtures.echo None) initial))
              = COMPLETE) by (vm_compute; reflexivity).
  split; [exact C|].
  destruct (@complete_run_made_all_three_calls Fixtures.echo None initial C)
    as (v & n & c & det & r1 & t & r2 & r3 & d & bytes & ctx & buf
        & _ & _ & _ & _ & _ & (R3 & A) & X & B & D & F).
  vm_compute in R3. inversion R3; subst r3.
  vm_compute in A. inversion A; subst d.
  vm_compute in X. inversion X; subst ctx.
  vm_compute in B. inversion B; subst bytes.
  exists (lit "AAAB"), (lit "AAAB"), buf.
  split; [reflexivity|]. split; [reflexivity|]. split; [reflexivity|].
  split; [exact D|]. split; [exact F|].
  vm_compute in D. inversion D. reflexivity.
Defined.

(** X17.  What earlier steps stored stays when a later step fails: once
    the details request has been sent the analysis result is in the state,
    and once the speech request has been sent so are the details, whatever
    the final status. *)
Theorem earlier_results_survive_later_failure :
  forall (rt : Runtime) (img : option jsstring) (st : AppState),
    (forall n c,
        In (DetailsRequest n c) (requests (run (startAnalysis rt img) st)) ->
        landmark (app (run (startAnalysis rt img) st)) <> None) /\
    (forall t,
        In (SpeechRequest t) (requests (run (startAnalysis rt img) st)) ->
        landmark (app (run (startAnalysis rt img) st)) <> None /\
        details (app (run (startAnalysis rt img) st)) <> None).
Proof. exact run_partial. Qed.

Lemma earlier_results_witness :
  status (app (run (startAnalysis Fixtures.mute None) initial)) = ERROR /\
  error (app (run (startAnalysis Fixtures.mute None) initial))
  = Some {| message := lit "No audio generated" |} /\
  In (SpeechRequest (lit "Built for the 1889 World's Fair."))
     (requests (run (startAnalysis Fixtures.mute None) initial)) /\
  landmark (app (run (startAnalysis Fixtures.mute None) initial)) <> None /\
  details (app (run (startAnalysis Fixtures.mute None) initial)) <> None.
Proof.
  assert (H : In (SpeechRequest (lit "Built for the 1889 World's Fair."))
                 (requests (run (startAnalysis Fixtures.mute None) initial))).
  { vm_compute. right; right; left. reflexivity. }
  split; [vm_compute; reflexivity|]. split; [vm_compute; reflexivity|].
  split; [exact H|].
  exact (proj2 (earlier_results_survive_later_failure
                  Fixtures.mute None initial) _ H).
Defined.

(** X18.  When the vision call itself fails, the run ends in [ERROR]
    showing the message of the thrown exception, or the generic text when
    the exception has no message or an empty one; only the vision request
    was sent and no result is stored. *)
Theorem vision_failure_surfaces_message :
  forall (rt : Runtime) (img : option jsstring) (st : AppState) (e : Exn),
    truthy (API_KEY rt) = true ->
    generateContent rt (VisionRequest img) = Throw e ->
    status (app (run (startAnalysis rt img) st)) = ERROR /\
    error (app (run (startAnalysis rt img) st))
    = Some {| message :=
                or_else (exn_message e)
                  (lit "Something went wrong during analysis.") |} /\
    requests (run (startAnalysis rt img) st) = [VisionRequest img] /\
    landmark (app (run (startAnalysis rt img) st)) = None.
Proof. exact run_vision_failure. Qed.

Lemma vision_failure_witness :
  truthy (API_KEY Fixtures.offline) = true /\
  generateContent Fixtures.offline (VisionRequest None)
  = Throw (mkExn EHost (Some (lit "Failed to fetch"))) /\
  error (app (run (startAnalysis Fixtures.offline None) initial))
  = Some {| message := lit "Failed to fetch" |}.
Proof.
  split; [reflexivity|]. split; [reflexivity|].
  destruct (@vision_failure_surfaces_message Fixtures.offline None initial
              (mkExn EHost (Some (lit "Failed to fetch"))) eq_refl eq_refl)
    as (_ & E & _).
  exact E.
Defined.

(** ** Playback and the states the events can reach *)

Module PlaybackFacts.
Import AppFacts.

Lemma stopNode_length (id : nat) (ns : list SourceNode) :
  List.length (stopNode id ns) = List.length ns.
Proof.
  revert id; induction ns as [|n ns IH]; intros [|id]; simpl; auto.
Qed.

Lemma stopNode_idem (id : nat) (ns : list SourceNode) :
  stopNode id (stopNode id ns) = stopNode id ns.
Proof.
  revert id; induction ns as [|n ns IH]; intros [|id]; simpl;
    try reflexivity.
  rewrite IH. reflexivity.
Qed.

Lemma stopNode_last (ns : list SourceNode) (n : SourceNode) :
  stopNode (List.length ns) (ns ++ [n]) = ns ++ [silenced n].
Proof.
  induction ns as [|m ns IH]; simpl; [reflexivity|].
  rewrite IH. reflexivity.
Qed.

(** Stopping the node the ref holds silences everything when nothing else
    was sounding. *)
Lemma stop_ref_silences (st : AppState) :
  singlePlayback st ->
  Forall (fun n => src_playing n = false)
         (match sourceNodeRef st with
          | Some id => stopNode id (nodes st)
          | None => nodes st
          end).
Proof.
  intros SP. apply Forall_forall. intros n Hin.
  apply In_nth_error in Hin. destruct Hin as [j Hj].
  destruct (src_playing n) eqn:P; [exfalso | reflexivity].
  destruct (sourceNodeRef st) as [id|] eqn:R.
  - rewrite stopNode_nth in Hj. destruct (Nat.eqb j id) eqn:J.
    + destruct (nth_error (nodes st) j); simpl in Hj; inversion Hj; subst.
      simpl in P. discriminate.
    + specialize (SP j n Hj P). rewrite R in SP. inversion SP; subst.
      rewrite Nat.eqb_refl in J. discriminate.
  - specialize (SP j n Hj P). rewrite R in SP. discriminate.
Qed.

Lemma silent_single (s : AppState) : allSilent s -> singlePlayback s.
Proof.
  intros A id n H P. unfold allSilent in A. rewrite Forall_forall in A.
  apply nth_error_In in H. rewrite (A n H) in P. discriminate.
Qed.

Lemma inOrder_transfer (s s' : AppState) :
  nodes s' = nodes s -> sourceNodeRef s' = sourceNodeRef s ->
  isPlaying s' = isPlaying s ->
  playbackInOrder s -> playbackInOrder s'.
Proof.
  unfold playbackInOrder, singlePlayback, allSilent.
  intros -> -> ->. tauto.
Qed.

Lemma toggleAudio_inOrder (st : AppState) :
  playbackInOrder st -> playbackInOrder (toggleAudio st).
Proof.
  intros (SP & Q & V). unfold toggleAudio.
  destruct (audioContextRef st) as [ctx|]; [|repeat split; assumption].
  destruct (audioBuffer st) as [buf|]; [|repeat split; assumption].
  destruct (isPlaying st) eqn:P.
  - pose proof (stop_ref_silences SP) as S.
    assert (A : allSilent
                  (setIsPlaying
                     match sourceNodeRef st with
                     | Some id => setNodes st (stopNode id (nodes st))
                     | None => st
                     end false)).
    { unfold allSilent. destruct (sourceNodeRef st); exact S. }
    split; [apply silent_single, A|]. split; [intros _; exact A|].
    intros id R. destruct (sourceNodeRef st) as [id'|] eqn:R'; simpl in *.
    + rewrite stopNode_length. apply V. congruence.
    + apply V. congruence.
  - specialize (Q eq_refl). unfold allSilent in Q.
    rewrite Forall_forall in Q.
    split; [|split].
    + intros id n H Pn. simpl in *.
      destruct (Nat.lt_ge_cases id (List.length (nodes st))) as [L | L].
      * rewrite nth_error_app1 in H by exact L.
        apply nth_error_In in H. rewrite (Q n H) in Pn. discriminate.
      * assert (id = List.length (nodes st)); [|subst; reflexivity].
        assert (id < List.length (nodes st ++ [ {| src_buffer := buf;
                                                   src_playing := true |} ]))
          by (apply nth_error_Some; congruence).
        rewrite length_app in *. simpl in *. lia.
    + simpl. discriminate.
    + simpl. intros id E. inversion E; subst.
      rewrite length_app. simpl. lia.
Qed.

Lemma resetApp_ref (st : AppState) :
  sourceNodeRef (resetApp st) = sourceNodeRef st.
Proof.
  unfold resetApp. destruct (sourceNodeRef st) eqn:R; simpl;
    destruct (fileInputRef st); simpl; congruence.
Qed.

Lemma resetApp_inOrder (st : AppState) :
  playbackInOrder st -> playbackInOrder (resetApp st).
Proof.
  intros (SP & Q & V).
  assert (A : allSilent (resetApp st)).
  { unfold allSilent. rewrite resetApp_nodes. apply stop_ref_silences, SP. }
  split; [apply silent_single, A|]. split; [intros _; exact A|].
  intros id R. rewrite resetApp_nodes.
  rewrite resetApp_ref in R.
  rewrite R, stopNode_length. apply V, R.
Qed.

Lemma onended_inOrder (st : AppState) (id : nat) :
  sourceNodeRef st = Some id ->
  playbackInOrder st -> playbackInOrder (onended id st).
Proof.
  intros R (SP & Q & V).
  assert (A : allSilent (onended id st)).
  { unfold allSilent, onended. simpl.
    pose proof (stop_ref_silences SP) as S. rewrite R in S. exact S. }
  split; [apply silent_single, A|]. split; [intros _; exact A|].
  unfold onended; simpl. intros id' R'. rewrite stopNode_length.
  apply V, R'.
Qed.

Lemma offered_status (st : AppState) (e : Event) :
  offered st e = true ->
  match e with
  | FileSelected _ _ => True
  | ToggleAudio => status st = COMPLETE
  | Reset => status st = COMPLETE \/ status st = ERROR
  | SourceEnded _ => True
  end.
Proof.
  unfold offered. destruct e, (status st); auto; discriminate.
Qed.

Lemma passes_not_idle (rt : Runtime) (img : option jsstring)
    (st s : AppState) :
  In s (passes (startAnalysis rt img) st) -> status s <> IDLE.
Proof.
  unfold passes. intros H. apply in_app_or in H. destruct H as [H | [<- | []]].
  - destruct (RunFacts.run_frames_forward rt img st) as (_ & F & _).
    rewrite forallb_forall in F. specialize (F s H).
    intros E. rewrite E in F. discriminate.
  - destruct (proj2 (startAnalysis_passes rt img st)) as [E | E];
      rewrite E; discriminate.
Qed.

(** Once a render is committed the ref is empty exactly when the view is
    not the idle one. *)
Lemma commit_ref (s : AppState) :
  fileInputRef (commit s) = None <-> status (commit s) <> IDLE.
Proof.
  unfold commit. destruct (status s) eqn:E;
    try destruct (fileInputRef s) eqn:F; simpl; rewrite ?E, ?F;
    split; try congruence; intros; discriminate.
Qed.

Lemma wellFormed_commit (x : AppState) :
  (status x = IDLE ->
   image x = None /\ landmark x = None /\ details x = None /\
   isPlaying x = false) ->
  (audioBuffer x <> None -> audioContextRef x <> None) ->
  wellFormed (commit x).
Proof.
  intros H1 H2. pose proof (commit_ref x) as R.
  destruct (commit_keeps x) as (A & B & _ & C & D & E & F & G & _).
  unfold wellFormed. rewrite A, B, C, D, E, F, G in *.
  split; [exact H1|]. split; [exact H2 | exact R].
Qed.

Lemma reachable_wellFormed (s : AppState) : reachable s -> wellFormed s.
Proof.
  induction 1 as [|st st' e R (I1 & I2 & I3) Off Hin].
  - unfold wellFormed; simpl. repeat split; auto; congruence.
  - apply offered_status in Off.
    destruct e as [rt [result|] | | | id]; simpl in Hin.
    + rewrite passes_onload in Hin.
      pose proof (passes_not_idle _ _ _ _ Hin) as NI.
      pose proof (RunFacts.run_frame rt (base64Data result)
                    (setImage st (Some result))) as F.
      rewrite Forall_forall in F.
      destruct (F st' Hin) as (_ & _ & _ & _ & A & C & _).
      unfold wellFormed. split; [intros E; contradiction|].
      split; [exact C|]. split; [intros _; exact NI | intros _; exact A].
    + destruct Hin as [<- | []]. exact (conj I1 (conj I2 I3)).
    + destruct Hin as [<- | []].
      destruct (toggleAudio_keeps st) as (A & _ & _ & D & _ & _).
      assert (C : audioContextRef (toggleAudio st) = audioContextRef st).
      { clear. unfold toggleAudio.
        destruct (audioContextRef st) eqn:E1, (audioBuffer st) eqn:E2,
          (isPlaying st), (sourceNodeRef st); simpl; congruence. }
      apply wellFormed_commit.
      * rewrite A, Off. intros E; discriminate E.
      * rewrite D, C. exact I2.
    + destruct Hin as [<- | []].
      assert (F : image (resetApp st) = None /\
                  landmark (resetApp st) = None /\
                  details (resetApp st) = None /\
                  isPlaying (resetApp st) = false /\
                  audioBuffer (resetApp st) = audioBuffer st /\
                  audioContextRef (resetApp st) = audioContextRef st).
      { unfold resetApp. destruct (sourceNodeRef st); simpl;
          destruct (fileInputRef st); simpl; repeat split; reflexivity. }
      destruct F as (F2 & F3 & F4 & F5 & F6 & F7).
      apply wellFormed_commit.
      * intros _. repeat split; assumption.
      * rewrite F6, F7. exact I2.
    + destruct Hin as [<- | []]. apply wellFormed_commit.
      * unfold onended; simpl. intros E. destruct (I1 E) as (A & B & C & _).
        auto.
      * unfold onended; simpl. exact I2.
Qed.

End PlaybackFacts.

Import PlaybackFacts.

(** X19.  Play then pause stops exactly what play started: from a state
    that has a context and a buffer and is not playing, the first toggle
    adds one sounding node bound to the buffer and points the ref at it;
    the second leaves that node silent, the older nodes as they were, and
    [isPlaying] off again. *)
Theorem toggleAudio_twice_stops_what_it_started :
  forall (st : AppState) (ctx : AudioContext) (buf : AudioBuffer),
    audioContextRef st = Some ctx -> audioBuffer st = Some buf ->
    isPlaying st = false ->
    (isPlaying (toggleAudio st) = true /\
     sourceNodeRef (toggleAudio st) = Some (List.length (nodes st)) /\
     nodes (toggleAudio st)
     = nodes st ++ [ {| src_buffer := buf; src_playing := true |} ]) /\
    (isPlaying (toggleAudio (toggleAudio st)) = false /\
     sourceNodeRef (toggleAudio (toggleAudio st))
     = Some (List.length (nodes st)) /\
     nodes (toggleAudio (toggleAudio st))
     = nodes st ++ [ {| src_buffer := buf; src_playing := false |} ]).
Proof.
  intros st ctx buf C B P.
  assert (T : toggleAudio st
              = setIsPlaying
                  (setSourceNodeRef
                     (setNodes st
                        (nodes st ++
                         [ {| src_buffer := buf; src_playing := true |} ]))
                     (Some (List.length (nodes st)))) true).
  { unfold toggleAudio. rewrite C, B, P. reflexivity. }
  rewrite T. split; [repeat split|].
  unfold toggleAudio. simpl. rewrite C, B. simpl.
  rewrite stopNode_last. repeat split.
Qed.

Lemma toggleAudio_twice_witness :
  audioContextRef Demo.completed = Some {| ctx_sampleRate := 24000 |} /\
  isPlaying Demo.completed = false /\
  List.map src_playing (nodes (toggleAudio Demo.completed)) = [true] /\
  List.map src_playing (nodes (toggleAudio (toggleAudio Demo.completed)))
  = [false].
Proof.
  destruct (@toggleAudio_twice_stops_what_it_started Demo.completed
              {| ctx_sampleRate := 24000 |}
              {| sampleRate := 24000; numberOfChannels := 1;
                 pcm := [0%N; 0%N; 1%N; 0%N] |}
              ltac:(vm_compute; reflexivity) ltac:(vm_compute; reflexivity)
              ltac:(vm_compute; reflexivity))
    as ((_ & _ & N1) & (_ & _ & N2)).
  split; [vm_compute; reflexivity|]. split; [vm_compute; reflexivity|].
  rewrite N1, N2. split; vm_compute; reflexivity.
Defined.

(** X20.  Resetting twice is resetting once. *)
Theorem resetApp_idempotent :
  forall st : AppState, resetApp (resetApp st) = resetApp st.
Proof.
  intros [stat img err lm det buf playing ctx [id|] [input|] ns];
    unfold resetApp; simpl; unfold setNodes; simpl;
    rewrite ?stopNode_idem; reflexivity.
Qed.

(** X21.  The handlers keep playback in order.  If the ref points at an
    existing node, only that node may be sounding and none is when
    [isPlaying] is off, then the same holds after [toggleAudio], after
    [resetApp], after the [onended] of the node the ref holds, and in every
    state of a run of the pipeline. *)
Theorem playback_stays_in_order :
  forall st : AppState,
    playbackInOrder st ->
    playbackInOrder (toggleAudio st) /\
    playbackInOrder (resetApp st) /\
    (forall id, sourceNodeRef st = Some id ->
                playbackInOrder (onended id st)) /\
    (forall (rt : Runtime) (img : option jsstring) (s : AppState),
        In s (passes (startAnalysis rt img) st) -> playbackInOrder s).
Proof.
  intros st H. split; [apply toggleAudio_inOrder, H|].
  split; [apply resetApp_inOrder, H|].
  split; [intros id R; apply onended_inOrder; assumption|].
  intros rt img s Hin.
  pose proof (run_frame rt img st) as F. rewrite Forall_forall in F.
  destruct (F s Hin) as (_ & B & C & D & _).
  eapply inOrder_transfer; eassumption.
Qed.

Lemma playback_stays_in_order_witness :
  playbackInOrder Demo.completed /\
  playbackInOrder (toggleAudio Demo.completed) /\
  playbackInOrder (resetApp (toggleAudio Demo.completed)).
Proof.
  assert (H : playbackInOrder Demo.completed).
  { split; [|split].
    - intros [|id] n; vm_compute; intros E; discriminate E.
    - intros _. vm_compute. constructor.
    - intros id. vm_compute. intros E; discriminate E. }
  split; [exact H|].
  pose proof (proj1 (playback_stays_in_order H)) as H1.
  split; [exact H1|].
  exact (proj1 (proj2 (playback_stays_in_order H1))).
Defined.

(** X22.  In every state the events can reach, runs starting in whatever
    state they find: an idle state holds no image, no result, no details
    and is not playing; a decoded buffer never exists without an audio
    context; and the ref of the file input is empty exactly when the view
    is not the idle one, so that [resetApp], which is offered in the error
    and result views only, finds no input to clear. *)
Theorem reachable_states_are_wellFormed :
  forall s : AppState, reachable s -> wellFormed s.
Proof. exact reachable_wellFormed. Qed.

Lemma reachable_states_witness :
  reachable Fixtures.played /\
  wellFormed Fixtures.played /\
  fileInputRef Fixtures.played = None /\
  reachable (commit (resetApp Fixtures.played)) /\
  wellFormed (commit (resetApp Fixtures.played)) /\
  status (commit (resetApp Fixtures.played)) = IDLE /\
  fileInputRef (commit (resetApp Fixtures.played)) = Some [].
Proof.
  assert (R1 : reachable Demo.completed).
  { apply reach_event
      with (st := initial) (e := FileSelected Demo.good (Some Demo.dataUrl));
      [apply reach_initial | reflexivity |].
    unfold after, passes, Demo.completed.
    apply in_or_app. right. left. reflexivity. }
  assert (R2 : reachable Fixtures.played).
  { apply reach_event with (st := Demo.completed) (e := ToggleAudio);
      [exact R1 | vm_compute; reflexivity | left; reflexivity]. }
  assert (R3 : reachable (commit (resetApp Fixtures.played))).
  { apply reach_event with (st := Fixtures.played) (e := Reset);
      [exact R2 | vm_compute; reflexivity | left; reflexivity]. }
  split; [exact R2|]. split; [exact (reachable_states_are_wellFormed R2)|].
  split; [vm_compute; reflexivity|].
  split; [exact R3|]. split; [exact (reachable_states_are_wellFormed R3)|].
  split; vm_compute; reflexivity.
Defined.

(** X23.  With a credential, [getLandmarkDetails] throws a [TypeError]
    before any request when the name or the context cannot be written into
    the prompt.  That is the case of an object with a [toString] key, alone
    or as an element of an array; strings, numbers, booleans, [null],
    [undefined] and objects without that key can all be written. *)
Theorem getLandmarkDetails_throws_on_unprintable_argument :
  forall (rt : Runtime) (n c : option Json) (w : World),
    truthy (API_KEY rt) = true ->
    (canInterpolate n = false \/ canInterpolate c = false ->
     getLandmarkDetails rt n c w
     = (Throw (mkExn ETypeError (Some (conversionErrorMessage rt))), w)) /\
    (forall members,
        canInterpolate (Some (JObject members)) = false <->
        In (lit "toString") (List.map fst members)) /\
    (forall elems,
        canInterpolate (Some (JArray elems)) = false <->
        exists v, In v elems /\ canInterpolate (Some v) = false) /\
    canInterpolate None = true /\
    canInterpolate (Some JNull) = true /\
    (forall b, canInterpolate (Some (JBool b)) = true) /\
    (forall x, canInterpolate (Some (JNumber x)) = true) /\
    (forall x, canInterpolate (Some (JString x)) = true).
Proof.
  intros rt n c w K. split; [|split; [|split]].
  - intros H. unfold getLandmarkDetails, getClient, interpolate, bind, throw.
    rewrite K. simpl.
    destruct (canInterpolate n); [|reflexivity].
    destruct H as [H | H]; [discriminate H|]. rewrite H. reflexivity.
  - intros members. cbn [canInterpolate toStringThrows].
    rewrite negb_false_iff, existsb_exists. split.
    + intros ([k v] & Hin & E). apply MapFacts.eqb_eq in E. simpl in E.
      subst k. apply in_map_iff. exists (lit "toString", v). auto.
    + intros H. apply in_map_iff in H. destruct H as ([k v] & E & Hin).
      simpl in E. subst k. exists (lit "toString", v).
      split; [exact Hin | apply MapFacts.eqb_refl].
  - intros elems. cbn [canInterpolate toStringThrows].
    rewrite negb_false_iff, existsb_exists. split.
    + intros (v & Hin & E). exists v. rewrite E. auto.
    + intros (v & Hin & E). exists v. rewrite negb_false_iff in E. auto.
  - repeat split.
Qed.

Lemma getLandmarkDetails_unprintable_witness :
  truthy (API_KEY Demo.good) = true /\
  canInterpolate (Some Fixtures.oddName) = false /\
  getLandmarkDetails Demo.good (Some Fixtures.oddName) None Demo.world0
  = (Throw (mkExn ETypeError
              (Some (lit "Cannot convert object to primitive value"))),
     Demo.world0).
Proof.
  split; [reflexivity|]. split; [reflexivity|].
  apply (proj1 (@getLandmarkDetails_throws_on_unprintable_argument
                  Demo.good (Some Fixtures.oddName) None Demo.world0
                  eq_refl)).
  left. reflexivity.
Defined.

(** X24.  A vision answer that is an object whose [name] cannot be written
    into the prompt stops the run at the second step: the object is stored
    as the analysis result, the run ends in [ERROR] with the message of the
    conversion error, and only the vision request was sent. *)
Theorem unprintable_name_stops_run_at_details :
  forall (rt : Runtime) (img : option jsstring) (st : AppState)
         (response : GenerateContentResponse) (t : jsstring)
         (members : list (jsstring * Json)),
    truthy (API_KEY rt) = true ->
    generateContent rt (VisionRequest img) = Ok response ->
    text response = Some t -> t <> [] ->
    JSON.parse t = Some (JObject members) ->
    canInterpolate (JSON.lookup (lit "name") members) = false ->
    status (app (run (startAnalysis rt img) st)) = ERROR /\
    error (app (run (startAnalysis rt img) st))
    = Some {| message :=
                or_else (Some (conversionErrorMessage rt))
                  (lit "Something went wrong during analysis.") |} /\
    requests (run (startAnalysis rt img) st) = [VisionRequest img] /\
    landmark (app (run (startAnalysis rt img) st)) = Some (JObject members) /\
    details (app (run (startAnalysis rt img) st)) = None.
Proof.
  intros rt img st response t members K G T Hne P Hn.
  exact (@run_conversion_failure rt img st response t members K G T Hne P Hn).
Qed.

Lemma unprintable_name_witness :
  JSON.parse Fixtures.oddText
  = Some (JObject [ (lit "name", Fixtures.oddName);
                    (lit "visualDescription", JString (lit "A tower.")) ]) /\
  status (app (run (startAnalysis Fixtures.odd None) initial)) = ERROR /\
  error (app (run (startAnalysis Fixtures.odd None) initial))
  = Some {| message := lit "Cannot convert object to primitive value" |} /\
  requests (run (startAnalysis Fixtures.odd None) initial)
  = [VisionRequest None].
Proof.
  assert (P : JSON.parse Fixtures.oddText
              = Some (JObject
                        [ (lit "name", Fixtures.oddName);
                          (lit "visualDescription",
                           JString (lit "A tower.")) ]))
    by (vm_compute; reflexivity).
  split; [exact P|].
  destruct (@unprintable_name_stops_run_at_details Fixtures.odd None initial
              {| text := Some Fixtures.oddText; candidates := None |}
              Fixtures.oddText _ eq_refl eq_refl eq_refl
              ltac:(intros H; vm_compute in H; discriminate H) P eq_refl)
    as (A & B & C & _).
  split; [exact A|]. split; [exact B | exact C].
Defined.
